(** * multicall.js: the aggregate pipeline of [src/aggregate.js]

    A shallow embedding of [aggregate], [aggregateDecodedFromABI],
    [_makeMulticallData] and the memoised [makeMulticallData], with the
    properties of the encode / decode pipeline proved about it.

    Conventions of the embedding:
    - a JavaScript string is a [string] (code units below 256, so the line
      terminators a regular expression's dot refuses are LF and CR);
    - a thrown exception or a rejected promise is [Err e]; [await] is
      sequencing;
    - the plain objects used as dictionaries ([keyToArgMap], [original],
      [transformed], [interfacesByContractAddress]) are [gmap string _],
      keys being ordinary property names;
    - the functions imported from [helpers.js], [ethers], [lodash] and
      [invariant] are collaborators: [lodash/memoize] and [invariant] are
      modelled by what they do, the codec, the hash and the remote call are
      the fields of the class [Collaborators]. *)

From Stdlib Require Import ZArith Lia Ascii String.
From Stdlib.Strings Require Import Byte.
From stdpp Require Import base option list gmap strings pretty.

Set Warnings "-register-all".

Local Open Scope string_scope.

(** ** Errors *)

Inductive exn :=
| InvariantViolation (message : string)   (* thrown by [invariant(false, message)] *)
| TypeError (what : string)               (* raised by the runtime itself *)
| Thrown (by_ : string) (reason : string) (* thrown inside a collaborator *).

Inductive result (A : Type) :=
| Ok (a : A)
| Err (e : exn).
Arguments Ok {A} a.
Arguments Err {A} e.

(** Sequencing: an exception skips what follows.  With these instances the
    notation [x ← r; k] reads as a block of statements. *)
#[global] Instance result_ret : MRet result := λ A a, Ok a.
#[global] Instance result_bind : MBind result := λ A B k r,
  match r with
  | Ok a => k a
  | Err e => Err e
  end.

(** [Array.prototype.map] with a callback that may throw: elements are
    visited in index order and the first exception aborts the whole map. *)
Fixpoint mapR {A B} (f : A → result B) (l : list A) : result (list B) :=
  match l with
  | [] => Ok []
  | x :: l' => y ← f x; ys ← mapR f l'; Ok (y :: ys)
  end.

(** The same with the index passed to the callback, counting from [i]. *)
Fixpoint imapR_from {A B} (f : nat → A → result B) (i : nat) (l : list A)
    : result (list B) :=
  match l with
  | [] => Ok []
  | x :: l' => y ← f i x; ys ← imapR_from f (S i) l'; Ok (y :: ys)
  end.

(** ** Strings and the two regular expressions *)

Module JS.

Definition LF : ascii := Ascii.ascii_of_nat 10.
Definition CR : ascii := Ascii.ascii_of_nat 13.
Definition nl : string := String LF "".

(** The characters the dot of a regular expression does not match. *)
Definition is_line_terminator (c : ascii) : bool :=
  bool_decide (c = LF) || bool_decide (c = CR).

Definition is_open (c : ascii) : bool := bool_decide (c = "("%char).
Definition is_close (c : ascii) : bool := bool_decide (c = ")"%char).

(** Whether the character occurs in the string. *)
Fixpoint occurs (c : ascii) (s : string) : bool :=
  match s with
  | "" => false
  | String c' s' => bool_decide (c' = c) || occurs c s'
  end.

(** Whether the string has a parenthesised group: an opening parenthesis
    with a closing one somewhere after it. *)
Fixpoint has_group (s : string) : bool :=
  match s with
  | "" => false
  | String c s' => (is_open c && occurs ")" s') || has_group s'
  end.

(** [s.substr(0, n)] *)
Definition substr0 (n : nat) (s : string) : string := String.substring 0 n s.

(** [s.slice(1, -1)] *)
Definition slice_1_m1 (s : string) : string :=
  String.substring 1 (String.length s - 2) s.

(** [s.split(',')]: never empty, [''.split(',')] is [['']]. *)
Fixpoint split_comma (s : string) : list string :=
  match s with
  | "" => [""]
  | String c s' =>
      if bool_decide (c = ","%char) then "" :: split_comma s'
      else match split_comma s' with
           | [] => [String c ""]
           | w :: ws => String c w :: ws
           end
  end.

(** [!!e] for a string. *)
Definition truthy (s : string) : bool := negb (bool_decide (s = "")).

(** [l.join(',')] *)
Fixpoint join_comma (l : list string) : string :=
  match l with
  | [] => ""
  | [x] => x
  | x :: l' => x +:+ "," +:+ join_comma l'
  end.

(** *** [INSIDE_EVERY_PARENTHESES = /\(.*?\)/g] *)

(** After the opening parenthesis: the lazy [.*?] gives way to [\)] at the
    first closing parenthesis, and fails on a line terminator or at the end
    of the string.  Returns the text in between and what follows. *)
Fixpoint lazy_dots_then_close (s : string) : option (string * string) :=
  match s with
  | "" => None
  | String c s' =>
      if is_close c then Some ("", s')
      else if is_line_terminator c then None
      else match lazy_dots_then_close s' with
           | Some (m, rest) => Some (String c m, rest)
           | None => None
           end
  end.

(** One attempt of the pattern at the current position. *)
Definition match_here (s : string) : option (string * string) :=
  match s with
  | String c s' =>
      if is_open c then
        match lazy_dots_then_close s' with
        | Some (m, rest) => Some ("(" +:+ m +:+ ")", rest)
        | None => None
        end
      else None
  | "" => None
  end.

(** The leftmost match: a failed attempt moves the start one character on. *)
Fixpoint first_match (s : string) : option (string * string) :=
  match match_here s with
  | Some r => Some r
  | None =>
      match s with
      | "" => None
      | String _ s' => first_match s'
      end
  end.

(** The [g] flag: matching resumes where the previous match ended.  Every
    match consumes characters, so [fuel] of the length of the string is
    never exhausted ([all_matches_fuel_enough]). *)
Fixpoint all_matches (fuel : nat) (s : string) : list string :=
  match fuel with
  | O => []
  | S fuel' =>
      match first_match s with
      | Some (m, rest) => m :: all_matches fuel' rest
      | None => []
      end
  end.

(** [s.match(INSIDE_EVERY_PARENTHESES)]: the array of all matches, [null]
    when there is none. *)
Definition match_INSIDE_EVERY_PARENTHESES (s : string) : option (list string) :=
  match all_matches (String.length s) s with
  | [] => None
  | ms => Some ms
  end.

(** *** [FIRST_CLOSING_PARENTHESES = /^[^)]*\)/]

    [s.match(FIRST_CLOSING_PARENTHESES)]: anchored at the start, the greedy
    class stops before the first closing parenthesis, which the pattern then
    consumes; [null] when the string has no closing parenthesis.  [Some m]
    is the element [0] of the match array. *)
Fixpoint match_FIRST_CLOSING_PARENTHESES (s : string) : option string :=
  match s with
  | "" => None
  | String c s' =>
      if is_close c then Some ")"
      else match match_FIRST_CLOSING_PARENTHESES s' with
           | Some m => Some (String c m)
           | None => None
           end
  end.

End JS.

(** ** Values, type descriptions, JSON *)

(** What the ABI codec consumes and produces: booleans, numbers (plain or
    big), strings (addresses and hex blobs among them), arrays and tuples. *)
Inductive value :=
| VBool (b : bool)
| VNum (n : Z)
| VStr (s : string)
| VArr (l : list value).

(** [v.toString()] *)
Fixpoint toString (v : value) : string :=
  match v with
  | VBool true => "true"
  | VBool false => "false"
  | VNum n => pretty n
  | VStr s => s
  | VArr l => JS.join_comma (map toString l)
  end.

(** A parameter description as [ethers] reads it: an object with [type],
    and possibly [name] and [components]; or just the name of the type. *)
Inductive ParamType :=
| Param (components : list ParamType) (name : option string) (type : string).

Definition type (p : ParamType) : string :=
  match p with Param _ _ t => t end.

Inductive TypeSpec :=
| TypeName (t : string)
| TypeObject (p : ParamType).

(** An entry of a contract ABI in its JSON form. *)
Record Fragment := {
  constant : bool;
  inputs : list ParamType;
  name : string;
  outputs : list ParamType;
  payable : bool;
  stateMutability : string;
  fragment_type : string;
}.

(** What [JSON.stringify] is applied to. *)
Inductive js :=
| JUndefined
| JFunction
| JBool (b : bool)
| JStr (s : string)
| JVal (v : value)
| JArr (l : list js)
| JObj (fields : list (string * js)).

(** ** Data model *)

(** [[key]] or [[key, transform]]; a transform is taken as a function of
    the value alone, that returns. *)
Record ReturnMeta := {
  key : string;
  transform : option (value → value);
}.

(** One element of the [calls] argument of [aggregate]:
    [{ call: [signature, ...argValues], target, returns }]. *)
Record Call := {
  call : string * list value;
  target : option string;
  returns : list ReturnMeta;
}.

(** What [calls.map] turns a [Call] into. *)
Record Descriptor := {
  method : string;
  args : list (value * string);
  returnTypes : list string;
  d_target : string;
  d_returns : list ReturnMeta;
}.

Record Config := {
  multicallAddress : string;
  rpcUrl : string;
}.

Record RetObj := {
  blockNumber : option value;
  original : gmap string value;
  transformed : gmap string value;
}.

Record AggregateReturn := {
  results : RetObj;
  keyToArgMap : gmap string (list value);
}.

(** [calls = Array.isArray(calls) ? calls : [calls]] *)
Inductive OneOrMany (A : Type) :=
| One (x : A)
| Many (l : list A).
Arguments One {A} x.
Arguments Many {A} l.

Definition arrayify {A} (calls : OneOrMany A) : list A :=
  match calls with
  | One x => [x]
  | Many l => l
  end.

(** [!target] *)
Definition falsy (target : option string) : bool :=
  match target with
  | None => true
  | Some t => negb (JS.truthy t)
  end.

(** The name a value of [target] has as a property key. *)
Definition property_key (target : option string) : string :=
  match target with
  | None => "undefined"
  | Some t => t
  end.

(** The three fields [_makeMulticallData] destructures from each element, and
    the element as [JSON.stringify] sees it. *)
Class EnvelopeFields (D : Type) := {
  target_of : D → string;
  method_of : D → string;
  args_of : D → option (list (value * string));
  toJS : D → js;
}.

Definition args_toJS (args : list (value * string)) : js :=
  JArr (map (λ a, JArr [JVal a.1; JStr a.2]) args).

Definition returns_toJS (returns : list ReturnMeta) : js :=
  JArr (map (λ m, JArr (JStr (key m) ::
                        match transform m with
                        | Some _ => [JFunction]
                        | None => []
                        end)) returns).

#[global] Instance Descriptor_fields : EnvelopeFields Descriptor := {|
  target_of := d_target;
  method_of := method;
  args_of d := Some (args d);
  toJS d := JObj [("method", JStr (method d));
                  ("args", args_toJS (args d));
                  ("returnTypes", JArr (map JStr (returnTypes d)));
                  ("target", JStr (d_target d));
                  ("returns", returns_toJS (d_returns d))];
|}.

(** ** Collaborators *)

Class Collaborators := {
  (* helpers.js *)
  strip0x : string → string;
  encodeParameters : list TypeSpec → list value → result string;
  decodeParameters : list TypeSpec → value → result (list value);
  (* the remote node: the answer may depend on the requests made before *)
  ethCall : string → Config → list (string * Config) → result string;
  (* ethers/lib/utils *)
  toUtf8Bytes : string → list Byte.byte;
  keccak256 : list Byte.byte → string;
  Interface : Type;
  new_Interface : list Fragment → result Interface;
  getFunction : Interface → string → result Fragment;
  decodeFunctionResult : Interface → string → value → result value;
  (* the runtime *)
  JSON_stringify : js → string;
}.

(** ** The process: the cache of [memoize], a counter of the runs of
    [_makeMulticallData], the requests sent to the node *)

Record World := {
  cache : gmap string string;
  encodings : nat;
  requests : list (string * Config);
}.

Definition M (A : Type) : Type := World → result A * World.

#[global] Instance M_ret : MRet M := λ A a w, (Ok a, w).
#[global] Instance M_bind : MBind M := λ A B k m w,
  match m w with
  | (Ok a, w') => k a w'
  | (Err e, w') => (Err e, w')
  end.

Definition lift {A} (r : result A) : M A := λ w, (r, w).

(** [invariant(condition, message)] *)
Definition invariant (condition : bool) (message : string) : result unit :=
  if condition then Ok () else Err (InvariantViolation message).

(** [memoize(func, resolver)] of lodash: the key is looked up in the cache;
    on a miss [func] runs and its result, unless it throws, is stored. *)
Definition memoize {A} (func : A → result string) (resolver : A → string)
    (args : A) : M string := λ w,
  let key := resolver args in
  match cache w !! key with
  | Some blob => (Ok blob, w)
  | None =>
      match func args with
      | Ok blob =>
          (Ok blob, {| cache := <[key := blob]> (cache w);
                       encodings := S (encodings w);
                       requests := requests w |})
      | Err e =>
          (Err e, {| cache := cache w;
                     encodings := S (encodings w);
                     requests := requests w |})
      end
  end.

Section Pipeline.
Context `{Collaborators}.

(** *** [_makeMulticallData] *)

Definition selector (method : string) : string :=
  JS.substr0 10 (keccak256 (toUtf8Bytes method)).

Definition callData {D} `{EnvelopeFields D} (d : D) : result value :=
  encoded ← match args_of d with
            | Some (a :: args') =>
                e ← encodeParameters (map (λ a, TypeName a.2) (a :: args'))
                                     (map (λ a, a.1) (a :: args'));
                Ok (strip0x e)
            | _ => Ok ""
            end;
  Ok (VArr [VStr (target_of d); VStr (selector (method_of d) +:+ encoded)]).

Definition envelope_type : TypeSpec :=
  TypeObject (Param [Param [] None "address"; Param [] None "bytes"]
                    (Some "data") "tuple[]").

Definition _makeMulticallData {D} `{EnvelopeFields D} (calls : list D)
    : result string :=
  tuples ← mapR callData calls;
  let values := [VArr tuples] in
  calldata ← encodeParameters [envelope_type] values;
  Ok calldata.

(** [memoize(_makeMulticallData, (...args) => JSON.stringify(args))], called
    as [makeMulticallData(calls, false)]. *)
Definition makeMulticallData {D} `{EnvelopeFields D}
    : list D * bool → M string :=
  memoize (λ args, _makeMulticallData args.1)
          (λ args, JSON_stringify (JArr [JArr (map toJS args.1); JBool args.2])).

Definition send (callDataBytes : string) (config : Config) : M string := λ w,
  (ethCall callDataBytes config (requests w),
   {| cache := cache w;
      encodings := encodings w;
      requests := requests w ++ [(callDataBytes, config)] |}).

(** *** [aggregate] *)

Definition keyToArgMap_of (calls : list Call) : gmap string (list value) :=
  foldl (λ acc c,
           let args := (call c).2 in
           if bool_decide (0 < length args) then
             foldl (λ acc' returnMeta, <[key returnMeta := args]> acc')
                   acc (returns c)
           else acc)
        ∅ calls.

Definition arity_message (argTypes : list string) (argValues : list value)
    : string :=
  "Every method argument must have exactly one type." +:+ JS.nl +:+
  "          Comparing argument types " +:+
  JSON_stringify (JArr (map JStr argTypes)) +:+ JS.nl +:+
  "          to argument values " +:+
  JSON_stringify (JArr (map JVal argValues)) +:+ "." +:+ JS.nl +:+
  "        ".

Definition null_map : exn :=
  TypeError "Cannot read properties of null (reading 'map')".
Definition null_0 : exn :=
  TypeError "Cannot read properties of null (reading '0')".
Definition undefined_split : exn :=
  TypeError "Cannot read properties of undefined (reading 'split')".

(** [method.match(INSIDE_EVERY_PARENTHESES).map((match) => match.slice(1, -1))] *)
Definition parenthesised (method : string) : result (list string) :=
  match JS.match_INSIDE_EVERY_PARENTHESES method with
  | Some matches => Ok (map JS.slice_1_m1 matches)
  | None => Err null_map
  end.

(** [argTypesString.split(',').filter((e) => !!e)] on the first group. *)
Definition argTypes_of (groups : list string) : result (list string) :=
  match groups !! 0 with
  | Some argTypesString => Ok (filter (λ e, Is_true (JS.truthy e))
                                      (JS.split_comma argTypesString))
  | None => Err undefined_split
  end.

(** [!!returnTypesString ? returnTypesString.split(',') : []] on the second. *)
Definition returnTypes_of (groups : list string) : list string :=
  match groups !! 1 with
  | Some returnTypesString =>
      if JS.truthy returnTypesString then JS.split_comma returnTypesString
      else []
  | None => []
  end.

(** The callback of [calls.map] in [aggregate]. *)
Definition normalize (config : Config) (c : Call) : result Descriptor :=
  let target := if falsy (target c) then multicallAddress config
                else property_key (target c) in
  let '(method, argValues) := call c in
  groups ← parenthesised method;
  argTypes ← argTypes_of groups;
  _ ← invariant (bool_decide (length argTypes = length argValues))
                (arity_message argTypes argValues);
  let args := zip argValues argTypes in
  let returnTypes := returnTypes_of groups in
  method' ← match JS.match_FIRST_CLOSING_PARENTHESES method with
            | Some m => Ok m
            | None => Err null_0
            end;
  Ok {| method := method';
        args := args;
        returnTypes := returnTypes;
        d_target := target;
        d_returns := returns c |}.

(** [types[idx] === 'bool' ? r.toString() === 'true' : r] *)
Definition coerce (declared : option string) (r : value) : value :=
  if bool_decide (declared = Some "bool")
  then VBool (bool_decide (toString r = "true"))
  else r.

(** The body of [r.forEach((results, idx) => ...)]: what is pushed. *)
Definition decode_call (calls : list Descriptor) (idx : nat) (results : value)
    : result (list value) :=
  c ← match calls !! idx with
      | Some c => Ok c
      | None => Err (TypeError
                 "Cannot read properties of undefined (reading 'returnTypes')")
      end;
  let types := returnTypes c in
  resultsDecoded ← decodeParameters (map TypeName types) results;
  Ok (imap (λ idx r, coerce (types !! idx) r) resultsDecoded).

Fixpoint forEach_results (calls : list Descriptor) (idx : nat)
    (rs : list value) (acc : list value) : result (list value) :=
  match rs with
  | [] => Ok acc
  | results :: rs' =>
      pushed ← decode_call calls idx results;
      forEach_results calls (S idx) rs' (acc ++ pushed)
  end.

(** [outerResultsDecoded.reduce((acc, r) => { r.forEach(...); return acc }, [])] *)
Fixpoint parse (calls : list Descriptor) (outerResultsDecoded : list value)
    (acc : list value) : result (list value) :=
  match outerResultsDecoded with
  | [] => Ok acc
  | VArr rs :: rest =>
      acc' ← forEach_results calls 0 rs acc;
      parse calls rest acc'
  | _ :: _ => Err (TypeError "r.forEach is not a function")
  end.

(** One turn of the final loop. *)
Definition assign (meta : ReturnMeta) (v : value) (retObj : RetObj) : RetObj :=
  {| blockNumber := blockNumber retObj;
     original := <[key meta := v]> (original retObj);
     transformed := <[key meta := match transform meta with
                                   | Some f => f v
                                   | None => v
                                   end]> (transformed retObj) |}.

(** [for (let i = 0; i < parsedVals.length; i++)], from [i] on; [todo] is
    what is left of [parsedVals]. *)
Fixpoint assign_from (i : nat) (todo : list value)
    (returnDataMeta : list ReturnMeta) (retObj : RetObj) : result RetObj :=
  match todo with
  | [] => Ok retObj
  | v :: todo' =>
      match returnDataMeta !! i with
      | Some meta => assign_from (S i) todo' returnDataMeta (assign meta v retObj)
      | None => Err (TypeError "undefined is not iterable")
      end
  end.

Definition aggregate_array (calls : list Call) (config : Config)
    : M AggregateReturn :=
  let keyToArgMap := keyToArgMap_of calls in
  calls ← lift (mapR (normalize config) calls);
  callDataBytes ← makeMulticallData (calls, false);
  outerResults ← send callDataBytes config;
  let returnTypeArray := concat (map returnTypes calls) in
  let returnDataMeta := concat (map d_returns calls) in
  _ ← lift (invariant
              (bool_decide (length returnTypeArray = length returnDataMeta))
              "Missing data needed to parse results");
  outerResultsDecoded ← lift (decodeParameters
                                [TypeName "uint256"; TypeName "bytes[]"]
                                (VStr outerResults));
  let blockNumber := head outerResultsDecoded in
  parsedVals ← lift (parse calls (tail outerResultsDecoded) []);
  retObj ← lift (assign_from 0 parsedVals returnDataMeta
                   {| blockNumber := blockNumber;
                      original := ∅;
                      transformed := ∅ |});
  mret {| results := retObj; keyToArgMap := keyToArgMap |}.

Definition aggregate (calls : OneOrMany Call) (config : Config)
    : M AggregateReturn :=
  aggregate_array (arrayify calls) config.

End Pipeline.

(** ** ABI mode *)

Module ABI.

(** One element of the [calls] argument of [aggregateDecodedFromABI]:
    [{ abi, call: [methodName, ...argValues], target }]. *)
Record Call := {
  abi : list Fragment;
  call : string * list value;
  target : option string;
}.

(** What [calls.map] turns it into: [{ method, args, target }]. *)
Record Descriptor := {
  method : string;
  args : list (value * string);
  d_target : string;
}.

#[global] Instance Descriptor_fields : EnvelopeFields Descriptor := {|
  target_of := d_target;
  method_of := method;
  args_of d := Some (args d);
  toJS d := JObj [("method", JStr (method d));
                  ("args", args_toJS (args d));
                  ("target", JStr (d_target d))];
|}.

Definition view (n : string) (ins outs : list (string * string))
    (mutability : string) : Fragment :=
  {| constant := true;
     inputs := map (λ p, Param [] (Some p.1) p.2) ins;
     name := n;
     outputs := map (λ p, Param [] (Some p.1) p.2) outs;
     payable := false;
     stateMutability := mutability;
     fragment_type := "function" |}.

(** The array literal [MULTICALL_ABI] is built from. *)
Definition MULTICALL_ABI_json : list Fragment :=
  [ view "getCurrentBlockTimestamp" [] [("timestamp", "uint256")] "view";
    {| constant := false;
       inputs := [Param [Param [] (Some "target") "address";
                         Param [] (Some "callData") "bytes"]
                        (Some "calls") "tuple[]"];
       name := "aggregate";
       outputs := [Param [] (Some "blockNumber") "uint256";
                   Param [] (Some "returnData") "bytes[]"];
       payable := false;
       stateMutability := "nonpayable";
       fragment_type := "function" |};
    view "getLastBlockHash" [] [("blockHash", "bytes32")] "view";
    view "getEthBalance" [("addr", "address")] [("balance", "uint256")] "view";
    view "getCurrentBlockDifficulty" [] [("difficulty", "uint256")] "view";
    view "getCurrentBlockGasLimit" [] [("gaslimit", "uint256")] "view";
    view "getCurrentBlockCoinbase" [] [("coinbase", "address")] "view";
    view "getBlockHash" [("blockNumber", "uint256")] [("blockHash", "bytes32")]
         "view" ].

Section Pipeline.
Context `{Collaborators}.

Definition MULTICALL_ABI : result Interface :=
  new_Interface MULTICALL_ABI_json.

(** [Object.fromEntries(entries)]: in order, a later entry replaces an
    earlier one of the same key. *)
Definition fromEntries {V} (entries : list (string * V)) : gmap string V :=
  foldl (λ acc e, <[e.1 := e.2]> acc) ∅ entries.

(** [calls.map(({ abi, target }) => [target, new Interface(abi)])] *)
Definition entries_of (calls : list Call)
    : result (list (string * Interface)) :=
  mapR (λ c, i ← new_Interface (abi c); Ok (property_key (target c), i))
       calls.

Definition undefined_getFunction : exn :=
  TypeError "Cannot read properties of undefined (reading 'getFunction')".
Definition undefined_decodeFunctionResult : exn :=
  TypeError
    "Cannot read properties of undefined (reading 'decodeFunctionResult')".
Definition undefined_target : exn :=
  TypeError "Cannot read properties of undefined (reading 'target')".
Definition undefined_map : exn :=
  TypeError "Cannot read properties of undefined (reading 'map')".
Definition not_a_function : exn :=
  TypeError "decoded.map is not a function".

(** The callback of [calls.map] in [aggregateDecodedFromABI], from the
    interface found for the call on. *)
Definition normalize_with (contractInterface : option Interface)
    (config : Config) (c : Call) : result Descriptor :=
  let target := if falsy (target c) then multicallAddress config
                else property_key (target c) in
  let '(method, argValues) := call c in
  argTypes ← match contractInterface with
             | Some i => f ← getFunction i method; Ok (map type (inputs f))
             | None => Err undefined_getFunction
             end;
  _ ← invariant (bool_decide (length argTypes = length argValues))
                (arity_message argTypes argValues);
  let args := zip argValues argTypes in
  Ok {| method := method +:+ "(" +:+ JS.join_comma argTypes +:+ ")";
        args := args;
        d_target := target |}.

(** [const contractInterface = interfacesByContractAddress[target]] comes
    first, with [target] as the caller gave it. *)
Definition normalize (interfacesByContractAddress : gmap string Interface)
    (config : Config) (c : Call) : result Descriptor :=
  normalize_with (interfacesByContractAddress !! property_key (target c))
                 config c.

(** [contractInterface.decodeFunctionResult(method, blob)] *)
Definition decode_with (contractInterface : option Interface)
    (method : string) (blob : value) : result value :=
  match contractInterface with
  | None => Err undefined_decodeFunctionResult
  | Some i => decodeFunctionResult i method blob
  end.

(** The callback of [decoded.map((result, i) => ...)]: the interface is
    looked up under the target of the descriptor. *)
Definition decode_result (interfacesByContractAddress : gmap string Interface)
    (calls : list Descriptor) (i : nat) (blob : value) : result value :=
  match calls !! i with
  | None => Err undefined_target
  | Some c =>
      decode_with (interfacesByContractAddress !! d_target c) (method c) blob
  end.

Definition aggregateDecodedFromABI_array (calls : list Call)
    (config : Config) : M (list value) :=
  entries ← lift (entries_of calls);
  let interfacesByContractAddress := fromEntries entries in
  calls ← lift (mapR (normalize interfacesByContractAddress config) calls);
  callDataBytes ← makeMulticallData (calls, false);
  outerResults ← send callDataBytes config;
  multicall ← lift MULTICALL_ABI;
  outer ← lift (decodeFunctionResult multicall "aggregate" (VStr outerResults));
  decoded ← lift (match outer with
                  | VArr fields =>
                      match fields !! 1 with
                      | Some (VArr decoded) => Ok decoded
                      | Some _ => Err not_a_function
                      | None => Err undefined_map
                      end
                  | VStr s =>
                      if bool_decide (1 < String.length s)
                      then Err not_a_function
                      else Err undefined_map
                  | _ => Err undefined_map
                  end);
  lift (imapR_from (decode_result interfacesByContractAddress calls) 0 decoded).


End Pipeline.

End ABI.

(** ** A test double for the collaborators

    A node that answers every request with [response], and a codec that
    writes values in text: enough to run the pipeline on concrete calls. *)

Module Double.

Definition strip0x (s : string) : string :=
  match s with
  | String "0" (String "x" s') => s'
  | _ => s
  end.

Definition dquote : string := String (Ascii.ascii_of_nat 34) "".
Definition quote (s : string) : string := dquote +:+ s +:+ dquote.

Fixpoint value_json (v : value) : string :=
  match v with
  | VBool true => "true"
  | VBool false => "false"
  | VNum n => pretty n
  | VStr s => quote s
  | VArr l => "[" +:+ JS.join_comma (map value_json l) +:+ "]"
  end.

Fixpoint JSON_stringify (j : js) : string :=
  match j with
  | JUndefined | JFunction => "null"
  | JBool true => "true"
  | JBool false => "false"
  | JStr s => quote s
  | JVal v => value_json v
  | JArr l => "[" +:+ JS.join_comma (map JSON_stringify l) +:+ "]"
  | JObj fields =>
      "{" +:+ JS.join_comma
                (map (λ kv, quote kv.1 +:+ ":" +:+ JSON_stringify kv.2) fields)
      +:+ "}"
  end.

Definition encodeParameters (types : list TypeSpec) (values : list value)
    : result string :=
  Ok ("0x" +:+ JS.join_comma (map toString values)).

(** A result blob decodes to one value for each type asked for: a [bool] is
    whether the blob is [0x01], anything else is the blob itself. *)
Definition decode_as (data : value) (t : TypeSpec) : value :=
  match t with
  | TypeName "bool" => VBool (bool_decide (toString data = "0x01"))
  | _ => data
  end.

(** The outer pair decodes to [response]. *)
Definition decodeParameters (response : list value) (types : list TypeSpec)
    (data : value) : result (list value) :=
  match types with
  | [TypeName "uint256"; TypeName "bytes[]"] => Ok response
  | _ => Ok (map (decode_as data) types)
  end.

Definition ethCall (callData : string) (config : Config)
    (past : list (string * Config)) : result string :=
  Ok "0xresponse".

Definition toUtf8Bytes (s : string) : list Byte.byte :=
  map byte_of_ascii (list_ascii_of_string s).

(** Not the hash: a text of the right shape. *)
Definition keccak256 (bytes : list Byte.byte) : string :=
  "0x0123456789abcdef0123456789abcdef0123456789abcdef0123456789abcdef".

Definition getFunction (i : list Fragment) (method : string) : result Fragment :=
  match list_find (λ f, name f = method) i with
  | Some (_, f) => Ok f
  | None => Err (Thrown "getFunction" "no matching function")
  end.

Definition decodeFunctionResult (response : list value) (i : list Fragment)
    (method : string) (blob : value) : result value :=
  if bool_decide (method = "aggregate") then Ok (VArr response)
  else Ok (VArr [blob]).

Definition collaborators (response : list value) : Collaborators :=
  Build_Collaborators
    strip0x encodeParameters (decodeParameters response) ethCall
    toUtf8Bytes keccak256
    (list Fragment) Ok getFunction (decodeFunctionResult response)
    JSON_stringify.

End Double.

(** ** Concrete calls *)

Module Samples.

Definition w0 : World := {| cache := ∅; encodings := 0; requests := [] |}.

Definition config : Config :=
  {| multicallAddress := "0xMULTICALL"; rpcUrl := "https://node.example" |}.

Definition field (k : string) : ReturnMeta := {| key := k; transform := None |}.

Definition doubled (k : string) : ReturnMeta :=
  {| key := k;
     transform := Some (λ v, match v with VNum n => VNum (2 * n) | _ => v end) |}.

Definition negated (k : string) : ReturnMeta :=
  {| key := k;
     transform := Some (λ v, match v with VNum n => VNum (- n) | _ => v end) |}.

(** A node whose answer decodes to block 100 and one result blob. *)
Definition node : Collaborators :=
  Double.collaborators [VNum 100; VArr [VStr "0x2a"]].

Definition balanceOf : Call :=
  {| call := ("balanceOf(address)(uint256)", [VStr "0xABC"]);
     target := Some "0xTOKEN";
     returns := [field "a"] |}.

Definition totalSupply : Call :=
  {| call := ("totalSupply()(uint256)", []);
     target := Some "0xTOKEN";
     returns := [field "b"] |}.


(** No parenthesised group in the signature. *)
Definition bare : Call :=
  {| call := ("balanceOf", [VStr "0xABC"]);
     target := Some "0xTOKEN";
     returns := [field "a"] |}.

(** Two declared return types, one return field. *)
Definition getReserves : Call :=
  {| call := ("getReserves()(uint112,uint112)", []);
     target := None;
     returns := [field "reserve0"] |}.

Definition flags : Descriptor :=
  {| method := "flags()";
     args := [];
     returnTypes := ["bool"; "uint256"];
     d_target := "0xTOKEN";
     d_returns := [field "paused"; field "count"] |}.

Definition balance_descriptor (m : ReturnMeta) : Descriptor :=
  {| method := "balanceOf(address)";
     args := [(VStr "0xABC", "address")];
     returnTypes := ["uint256"];
     d_target := "0xTOKEN";
     d_returns := [m] |}.

Definition erc20 : list Fragment :=
  [ ABI.view "balanceOf" [("owner", "address")] [("balance", "uint256")] "view" ].



(** A return group with an empty entry. *)
Definition slot0 : Call :=
  {| call := ("slot0()(uint160,,bool)", []);
     target := Some "0xPOOL";
     returns := [field "price"; field "gap"; field "unlocked"] |}.

Definition totalSupply_descriptor : Descriptor :=
  {| method := "totalSupply()";
     args := [];
     returnTypes := ["uint256"];
     d_target := "0xTOKEN";
     d_returns := [field "b"] |}.

Definition slot0_descriptor : Descriptor :=
  {| method := "slot0()";
     args := [];
     returnTypes := ["uint160"; ""; "bool"];
     d_target := "0xPOOL";
     d_returns := [field "price"; field "gap"; field "unlocked"] |}.

(** A codec that refuses to encode, and a node that is down. *)
Definition refusing : Collaborators :=
  Build_Collaborators
    Double.strip0x
    (λ types values, Err (Thrown "encodeParameters" "invalid value"))
    (Double.decodeParameters [])
    Double.ethCall Double.toUtf8Bytes Double.keccak256
    (list Fragment) Ok Double.getFunction (Double.decodeFunctionResult [])
    Double.JSON_stringify.

Definition down : Collaborators :=
  Build_Collaborators
    Double.strip0x Double.encodeParameters (Double.decodeParameters [])
    (λ callData config past, Err (Thrown "ethCall" "connection refused"))
    Double.toUtf8Bytes Double.keccak256
    (list Fragment) Ok Double.getFunction (Double.decodeFunctionResult [])
    Double.JSON_stringify.



Definition abi_balance : ABI.Call :=
  {| ABI.abi := erc20;
     ABI.call := ("balanceOf", [VStr "0xABC"]);
     ABI.target := Some "0xTOKEN" |}.



Definition abi_balance_descriptor : ABI.Descriptor :=
  {| ABI.method := "balanceOf(address)";
     ABI.args := [(VStr "0xABC", "address")];
     ABI.d_target := "0xTOKEN" |}.

(** What the final loop leaves of two values for the fields [a] and [b]. *)
Definition two_written : RetObj :=
  {| blockNumber := Some (VNum 100);
     original := <["b" := VNum 2]> (<["a" := VNum 1]> ∅);
     transformed := <["b" := VNum 2]> (<["a" := VNum 1]> ∅) |}.

(** The process after the envelope of [balance_descriptor (doubled "a")] was
    built. *)
Definition w1 : World :=
  (@makeMulticallData node _ _ ([balance_descriptor (doubled "a")], false) w0).2.

End Samples.

(** ** The envelope in the words of its contract *)

Section Contract.
Context `{Collaborators}.

(** The first [n] bytes of a hex text: its [0x] and two digits a byte. *)
Definition first_bytes (n : nat) (hex : string) : string :=
  String.substring 0 (2 + 2 * n) hex.

(** [callData = selector ++ encodedArgs], with [encodedArgs] the encoding
    of the argument values at the argument types when there are arguments
    (its digits, the [0x] stripped), and nothing otherwise. *)
Definition is_callData (method : string)
    (args : option (list (value * string))) (data : string) : Prop :=
  let selector := first_bytes 4 (keccak256 (toUtf8Bytes method)) in
  match args with
  | Some (a :: args') =>
      ∃ encodedArgs,
        encodeParameters (map TypeName (map snd (a :: args')))
                         (map fst (a :: args'))
        = Ok encodedArgs
        ∧ data = selector +:+ strip0x encodedArgs
  | _ => data = selector
  end.

Definition is_tuple {D} `{EnvelopeFields D} (d : D) (tuple : value) : Prop :=
  ∃ data, is_callData (method_of d) (args_of d) data
          ∧ tuple = VArr [VStr (target_of d); VStr data].

(** The process after some more envelopes were asked for and some more
    requests were sent. *)
Inductive later (w : World) : World → Prop :=
| later_now : later w w
| later_envelope {D} `{EnvelopeFields D} (args : list D * bool) r w1 w2 :
    later w w1 → makeMulticallData args w1 = (r, w2) → later w w2
| later_request callDataBytes config r w1 w2 :
    later w w1 → send callDataBytes config w1 = (r, w2) → later w w2.

(** The process after the request was sent. *)
Definition sent (callDataBytes : string) (config : Config) (w : World) : World :=
  (send callDataBytes config w).2.

(** What [aggregate] does once the calls are normalised, the envelope is
    built and the node has answered. *)
Definition after_answer (calls : list Call) (ds : list Descriptor)
    (outerResults : string) : result AggregateReturn :=
  _ ← invariant
        (bool_decide (length (concat (map returnTypes ds))
                      = length (concat (map d_returns ds))))
        "Missing data needed to parse results";
  outerResultsDecoded ← decodeParameters
                          [TypeName "uint256"; TypeName "bytes[]"]
                          (VStr outerResults);
  parsedVals ← parse ds (tail outerResultsDecoded) [];
  retObj ← assign_from 0 parsedVals (concat (map d_returns ds))
             {| blockNumber := head outerResultsDecoded;
                original := ∅;
                transformed := ∅ |};
  Ok {| results := retObj; keyToArgMap := keyToArgMap_of calls |}.

End Contract.

(** ** Positions in the flat sequence of return fields *)

(** [i] is the last of the first [n] positions of [returnDataMeta] whose key
    is [k]. *)
Definition last_position (k : string) (returnDataMeta : list ReturnMeta)
    (n i : nat) : Prop :=
  i < n
  ∧ (∃ meta, returnDataMeta !! i = Some meta ∧ key meta = k)
  ∧ ∀ j meta, i < j → j < n → returnDataMeta !! j = Some meta → key meta ≠ k.

(** What the final loop stores in [transformed]. *)
Definition transformed_value (meta : ReturnMeta) (v : value) : value :=
  match transform meta with
  | Some f => f v
  | None => v
  end.

(** A call that has arguments and a return field keyed [k]. *)
Definition feeds (k : string) (c : Call) : Prop :=
  (call c).2 ≠ [] ∧ k ∈ map key (returns c).

#[global] Instance feeds_dec k c : Decision (feeds k c).
Proof. unfold feeds. apply _. Defined.

(** * Properties *)

(** ** Strings *)

Lemma append_nil (b : string) : "" +:+ b = b.
Proof. reflexivity. Qed.

Lemma append_cons x (a b : string) : String x a +:+ b = String x (a +:+ b).
Proof. reflexivity. Qed.

Lemma append_assoc (a b c : string) : (a +:+ b) +:+ c = a +:+ (b +:+ c).
Proof. induction a as [|x a IH]; [done |]. rewrite !append_cons. by f_equal. Qed.

(** Appends nested to the right, leading characters pulled out. *)
Ltac string_normal :=
  repeat first [ rewrite append_assoc | rewrite append_cons | rewrite append_nil ].

Lemma length_append (a b : string) :
  String.length (a +:+ b) = String.length a + String.length b.
Proof.
  induction a as [|x a IH]; [done |]. rewrite append_cons. simpl. by f_equal.
Qed.

Lemma substring_0_append (a b : string) :
  String.substring 0 (String.length a) (a +:+ b) = a.
Proof.
  induction a as [|x a IH]; [by destruct b |].
  rewrite append_cons. simpl. by f_equal.
Qed.

Lemma slice_of_group (a : string) : JS.slice_1_m1 ("(" +:+ a +:+ ")") = a.
Proof.
  unfold JS.slice_1_m1. rewrite !append_cons, append_nil. simpl.
  rewrite length_append. simpl.
  replace (String.length a + 1 - 1) with (String.length a) by lia.
  apply substring_0_append.
Qed.

Lemma occurs_append c (a b : string) :
  JS.occurs c (a +:+ b) = JS.occurs c a || JS.occurs c b.
Proof.
  induction a as [|x a IH]; [done |]. rewrite append_cons. simpl.
  rewrite IH. by rewrite orb_assoc.
Qed.

(** ** The regular expressions *)

Section Regex.
Import JS.

Lemma first_closing_prefix (p rest : string) :
  occurs ")" p = false →
  match_FIRST_CLOSING_PARENTHESES (p +:+ ")" +:+ rest) = Some (p +:+ ")").
Proof.
  induction p as [|c p IH]; [done |]. rewrite !(append_cons c p). simpl.
  intros [Hc Hp]%orb_false_elim. unfold is_close. rewrite Hc.
  by rewrite IH.
Qed.

Lemma first_closing_None (s : string) :
  match_FIRST_CLOSING_PARENTHESES s = None ↔ occurs ")" s = false.
Proof.
  induction s as [|c s IH]; simpl; [done |]. unfold is_close.
  destruct (bool_decide (c = ")"%char)); simpl; [done |].
  destruct (match_FIRST_CLOSING_PARENTHESES s); split; try done.
  - intros Hs. by apply IH in Hs.
  - intros _. by apply IH.
Qed.

Lemma lazy_dots_inside (a rest : string) :
  occurs ")" a = false → occurs LF a = false → occurs CR a = false →
  lazy_dots_then_close (a +:+ ")" +:+ rest) = Some (a, rest).
Proof.
  induction a as [|c a IH]; [done |]. rewrite (append_cons c a). simpl.
  intros [Hc Ha]%orb_false_elim [Hl Hal]%orb_false_elim
         [Hr Har]%orb_false_elim.
  unfold is_close, is_line_terminator. rewrite Hc, Hl, Hr. simpl.
  by rewrite IH.
Qed.

(** What a successful attempt has consumed. *)
Lemma lazy_dots_shape (s m rest : string) :
  lazy_dots_then_close s = Some (m, rest) → s = m +:+ ")" +:+ rest.
Proof.
  revert m. induction s as [|c s IH]; simpl; [done |]. intros m.
  unfold is_close. case_bool_decide as Hc.
  - intros [= <- <-]. by subst c.
  - destruct (is_line_terminator c); [done |].
    destruct (lazy_dots_then_close s) as [[m' r']|]; [| done].
    intros [= <- <-]. rewrite append_cons. by rewrite (IH m' eq_refl).
Qed.

Lemma match_here_shape (s m rest : string) :
  match_here s = Some (m, rest) →
  ∃ a, m = "(" +:+ a +:+ ")" ∧ s = m +:+ rest.
Proof.
  destruct s as [|c s]; simpl; [done |]. unfold is_open.
  case_bool_decide as Hc; [| done]. subst c.
  destruct (lazy_dots_then_close s) as [[a r]|] eqn:Hl; [| done].
  intros [= <- <-]. exists a. split; [done |].
  apply lazy_dots_shape in Hl. subst s. by string_normal.
Qed.

Lemma first_match_unfold (s : string) :
  first_match s = match match_here s with
                  | Some r => Some r
                  | None => match s with
                            | "" => None
                            | String _ s' => first_match s'
                            end
                  end.
Proof. by destruct s. Qed.

Lemma first_match_shape (s m rest : string) :
  first_match s = Some (m, rest) →
  ∃ p a, m = "(" +:+ a +:+ ")" ∧ s = p +:+ m +:+ rest.
Proof.
  induction s as [|c s IH]; [done |]. rewrite first_match_unfold.
  destruct (match_here (String c s)) as [[m' r']|] eqn:Hm.
  - intros ?; simplify_eq. apply match_here_shape in Hm as (a & -> & Hs).
    exists "", a. split; [done |]. by rewrite append_nil.
  - intros (p & a & -> & ->)%IH. by exists (String c p), a.
Qed.

Lemma first_match_shorter (s m rest : string) :
  first_match s = Some (m, rest) → String.length rest < String.length s.
Proof.
  intros (p & a & -> & ->)%first_match_shape.
  rewrite !length_append. simpl. lia.
Qed.

(** The fuel [match_INSIDE_EVERY_PARENTHESES] gives is never exhausted:
    more of it finds the same matches. *)
Lemma all_matches_fuel_enough (fuel fuel' : nat) (s : string) :
  (String.length s ≤ fuel)%nat → (String.length s ≤ fuel')%nat →
  all_matches fuel s = all_matches fuel' s.
Proof.
  revert fuel' s. induction fuel as [|fuel IH]; intros fuel' s Hf Hf'.
  - destruct s; [| simpl in Hf; lia]. by destruct fuel'.
  - destruct fuel' as [|fuel'].
    + destruct s; [done | simpl in Hf'; lia].
    + simpl. destruct (first_match s) as [[m rest]|] eqn:Hm; [| done].
      apply first_match_shorter in Hm. f_equal. apply IH; lia.
Qed.

(** A signature without a parenthesised group has no match. *)
Lemma no_group_no_match (s : string) :
  has_group s = false → match_INSIDE_EVERY_PARENTHESES s = None.
Proof.
  intros Hg. unfold match_INSIDE_EVERY_PARENTHESES.
  destruct (String.length s) as [|n]; [done |]. simpl.
  destruct (first_match s) as [[m rest]|] eqn:Hm; [| done].
  apply first_match_shape in Hm as (p & a & -> & ->).
  exfalso. clear n. induction p as [|c p IH].
  - rewrite append_nil, !append_cons in Hg. simpl in Hg.
    apply orb_false_elim in Hg as [Hg _].
    rewrite !occurs_append in Hg. simpl in Hg.
    by rewrite orb_true_r in Hg.
  - rewrite append_cons in Hg. simpl in Hg.
    apply orb_false_elim in Hg as [_ Hg]. by apply IH.
Qed.

(** A signature in which a group was found has a closing parenthesis: the
    anchored pattern matches it too. *)
Lemma first_closing_after_group (s : string) (ms : list string) :
  match_INSIDE_EVERY_PARENTHESES s = Some ms →
  ms ≠ [] ∧ is_Some (match_FIRST_CLOSING_PARENTHESES s).
Proof.
  unfold match_INSIDE_EVERY_PARENTHESES.
  destruct (String.length s) as [|n]; [done |]. simpl.
  destruct (first_match s) as [[m rest]|] eqn:Hm; [| done].
  intros [= <-]. split; [done |].
  apply first_match_shape in Hm as (p & a & -> & ->).
  apply not_eq_None_Some. rewrite first_closing_None.
  rewrite !occurs_append. simpl. by rewrite !orb_true_r.
Qed.

(** A signature [name(argTypes)rest]: the first match is the group of the
    argument types. *)
Lemma first_match_arguments (name a rest : string) :
  occurs "(" name = false →
  occurs ")" a = false → occurs LF a = false → occurs CR a = false →
  first_match (name +:+ "(" +:+ a +:+ ")" +:+ rest)
  = Some ("(" +:+ a +:+ ")", rest).
Proof.
  intros Hn Ha Hl Hr. induction name as [|c name IH].
  - rewrite append_nil, append_cons, append_nil, first_match_unfold.
    cbn [match_here]. unfold is_open. simpl.
    by rewrite lazy_dots_inside.
  - rewrite append_cons. simpl in Hn.
    apply orb_false_elim in Hn as [Hc Hn].
    rewrite first_match_unfold.
    cbn [match_here]. unfold is_open. rewrite Hc.
    by apply IH.
Qed.


End Regex.

(** ** Sequencing *)

Lemma mapR_app {A B} (f : A → result B) (l1 l2 : list A) :
  mapR f (l1 ++ l2)
  = (ys1 ← mapR f l1; ys2 ← mapR f l2; Ok (ys1 ++ ys2)%list).
Proof.
  induction l1 as [|x l1 IH]; simpl.
  - by destruct (mapR f l2).
  - destruct (f x) as [y|e]; simpl; [| done]. rewrite IH.
    destruct (mapR f l1) as [ys1|e]; simpl; [| done].
    by destruct (mapR f l2).
Qed.

(** The first exception is the one that escapes. *)
Lemma mapR_first_Err {A B} (f : A → result B) pre x post ys e :
  mapR f pre = Ok ys → f x = Err e → mapR f (pre ++ x :: post) = Err e.
Proof. intros Hpre Hx. rewrite mapR_app, Hpre. simpl. by rewrite Hx. Qed.

Lemma mapR_In_Err {A B} (f : A → result B) l x e :
  In x l → f x = Err e → ∃ e', mapR f l = Err e'.
Proof.
  induction l as [|y l IH]; simpl; [done |]. intros [-> | Hin] Hx.
  - rewrite Hx. by eexists.
  - destruct (f y); simpl; [| by eexists].
    destruct (IH Hin Hx) as [e' ->]. by eexists.
Qed.



Lemma bind_lift_Err {A B} (r : result A) (k : A → M B) e w :
  r = Err e → (lift r ≫= k) w = (Err e, w).
Proof. by intros ->. Qed.

Lemma bind_lift_Ok {A B} (r : result A) (k : A → M B) a w :
  r = Ok a → (lift r ≫= k) w = k a w.
Proof. by intros ->. Qed.

(** ** The normaliser of the signature mode *)

Section Normaliser.
Context `{Collaborators}.

(** An exception of the normaliser leaves [aggregate] before the envelope
    is built and before the node is asked: the process is as it was. *)
Lemma aggregate_array_normalize_Err calls config w e :
  mapR (normalize config) calls = Err e →
  aggregate_array calls config w = (Err e, w).
Proof. intros He. unfold aggregate_array. by apply bind_lift_Err. Qed.

Lemma aggregate_One (c : Call) config :
  aggregate (One c) config = aggregate (Many [c]) config.
Proof. reflexivity. Qed.

(** Past the first match, the normaliser raises nothing but the invariant
    error: the first group and the anchored match are there. *)
Lemma normalize_Err_cases config c e :
  normalize config c = Err e →
  e = null_map ∨ ∃ message, e = InvariantViolation message.
Proof.
  unfold normalize. destruct (call c) as [method argValues].
  unfold parenthesised.
  destruct (JS.match_INSIDE_EVERY_PARENTHESES method) as [ms|] eqn:Hms;
    simpl; [| intros [= <-]; by left].
  destruct (first_closing_after_group _ _ Hms) as [Hne [m Hm]].
  destruct ms as [|m0 ms]; [done |]. simpl.
  unfold invariant. case_bool_decide; simpl.
  - rewrite Hm. simpl. done.
  - intros [= <-]. right. by eexists.
Qed.

Lemma normalize_no_group config c :
  JS.has_group (call c).1 = false → normalize config c = Err null_map.
Proof.
  intros Hg. unfold normalize. destruct (call c) as [method argValues].
  simpl in Hg. unfold parenthesised. by rewrite (no_group_no_match _ Hg).
Qed.

Lemma aggregate_first_Err pre c post ds config w e :
  mapR (normalize config) pre = Ok ds → normalize config c = Err e →
  aggregate (Many (pre ++ c :: post)) config w = (Err e, w).
Proof.
  intros Hpre Hc. apply aggregate_array_normalize_Err.
  by apply mapR_first_Err with ds.
Qed.

Lemma aggregate_some_Err pre c post config w e :
  normalize config c = Err e →
  ∃ e', aggregate (Many (pre ++ c :: post)) config w = (Err e', w).
Proof.
  intros Hc.
  destruct (mapR_In_Err (normalize config) (pre ++ c :: post) c e)
    as [e' He']; [apply in_elt | done |].
  exists e'. by apply aggregate_array_normalize_Err.
Qed.




(** C9. A call whose signature has no parenthesised group makes the
    normaliser raise the runtime's TypeError for [null.map], which is not
    the invariant error; [aggregate] then fails with the process unchanged,
    so before any request to the node; when the calls before it normalise,
    the error [aggregate] fails with is that TypeError. *)
Theorem signature_without_group_raises_TypeError
    (pre post : list Call) (c : Call) (config : Config) (w : World) :
  JS.has_group (call c).1 = false →
  normalize config c = Err null_map
  ∧ (∀ message, null_map ≠ InvariantViolation message)
  ∧ (∃ e, aggregate (Many (pre ++ c :: post)) config w = (Err e, w))
  ∧ (∀ ds, mapR (normalize config) pre = Ok ds →
           aggregate (Many (pre ++ c :: post)) config w = (Err null_map, w)).
Proof.
  intros Hg. pose proof (normalize_no_group config c Hg) as Hn.
  split; [done |]. split; [done |].
  split; [by eapply aggregate_some_Err |].
  intros ds Hpre. by eapply aggregate_first_Err.
Qed.



End Normaliser.

(** ** The envelope builder *)

Lemma mapR_Ok_Forall2 {A B} (f : A → result B) l ys :
  mapR f l = Ok ys ↔ Forall2 (λ x y, f x = Ok y) l ys.
Proof.
  revert ys. induction l as [|x l IH]; simpl; intros ys.
  - split; [intros [= <-]; constructor | by inversion 1].
  - split.
    + destruct (f x) as [y|] eqn:Hx; simpl; [| done].
      destruct (mapR f l) as [ys'|]; simpl; [| done]. intros [= <-].
      constructor; [done | by apply IH].
    + inversion 1 as [|? y ? ys' Hx Hl]; subst. rewrite Hx. simpl.
      apply IH in Hl. by rewrite Hl.
Qed.

Lemma append_empty_r (s : string) : s +:+ "" = s.
Proof. induction s as [|c s IH]; [done |]. rewrite append_cons. by f_equal. Qed.

Section Envelope.
Context `{Collaborators}.

(** The selector is the [0x] and the first eight digits of the hash. *)
Lemma first_bytes_4 (digits : string) :
  first_bytes 4 ("0x" +:+ digits) = "0x" +:+ String.substring 0 8 digits.
Proof. reflexivity. Qed.

Lemma selector_first_bytes (method : string) :
  selector method = first_bytes 4 (keccak256 (toUtf8Bytes method)).
Proof. reflexivity. Qed.

Lemma callData_is_tuple {D} `{EnvelopeFields D} (d : D) (tuple : value) :
  callData d = Ok tuple ↔ is_tuple d tuple.
Proof.
  unfold callData, is_tuple, is_callData. rewrite <- selector_first_bytes.
  destruct (args_of d) as [[|a args']|].
  - split.
    + intros [= <-]. eexists. split; [done |]. by rewrite append_empty_r.
    + intros (data & -> & ->). simpl. by rewrite append_empty_r.
  - rewrite (map_map snd TypeName).
    change (map (λ a0 : value * string, a0.1) (a :: args'))
      with (map fst (a :: args')).
    split.
    + destruct (encodeParameters _ _) as [e|]; simpl; [| done].
      intros [= <-]. eexists. split; [| done]. by exists e.
    + intros (data & (e & -> & ->) & ->). done.
  - split.
    + intros [= <-]. eexists. split; [done |]. by rewrite append_empty_r.
    + intros (data & -> & ->). simpl. by rewrite append_empty_r.
Qed.

(** C5. [_makeMulticallData] returns a blob exactly when every call has
    its tuple [(target, callData)], [callData] being the first four bytes of
    the hash of the method string followed by the encoded arguments, when
    there are arguments, and by nothing otherwise, and the blob is the outer
    encoding, at the type [tuple[]] of [(address, bytes)], of the array of
    these tuples in the order of the calls. *)
Theorem envelope_is_encoding_of_tuples {D} `{EnvelopeFields D}
    (calls : list D) (blob : string) :
  _makeMulticallData calls = Ok blob
  ↔ ∃ tuples, Forall2 is_tuple calls tuples
              ∧ encodeParameters [envelope_type] [VArr tuples] = Ok blob.
Proof.
  unfold _makeMulticallData. split.
  - destruct (mapR callData calls) as [tuples|] eqn:Hm; simpl; [| done].
    destruct (encodeParameters _ _) as [b|] eqn:He; simpl; [| done].
    intros [= <-]. exists tuples. split; [| done].
    apply mapR_Ok_Forall2 in Hm.
    eapply Forall2_impl; [exact Hm |]. intros d t. apply callData_is_tuple.
  - intros (tuples & Ht & He).
    assert (mapR callData calls = Ok tuples) as ->.
    { apply mapR_Ok_Forall2. eapply Forall2_impl; [exact Ht |].
      intros d t. apply callData_is_tuple. }
    simpl. by rewrite He.
Qed.

(** *** The cache *)

Lemma memoize_hit {A} (func : A → result string) resolver args w blob :
  cache w !! resolver args = Some blob →
  memoize func resolver args w = (Ok blob, w).
Proof. intros Hc. unfold memoize. by rewrite Hc. Qed.

(** A blob that was returned is in the cache. *)
Lemma memoize_Ok_cached {A} (func : A → result string) resolver args w blob w' :
  memoize func resolver args w = (Ok blob, w') →
  cache w' !! resolver args = Some blob.
Proof.
  unfold memoize. destruct (cache w !! resolver args) as [b|] eqn:Hc.
  - by intros [= <- <-].
  - destruct (func args); [| done]. intros [= <- <-]. simpl.
    apply lookup_insert_eq.
Qed.

(** Nothing leaves the cache and no entry is replaced. *)
Lemma memoize_keeps {A} (func : A → result string) resolver args w r w' k blob :
  memoize func resolver args w = (r, w') →
  cache w !! k = Some blob → cache w' !! k = Some blob.
Proof.
  unfold memoize. destruct (cache w !! resolver args) as [b|] eqn:Hc.
  - by intros [= <- <-].
  - destruct (func args); intros [= <- <-]; simpl; [| done].
    intros Hk. rewrite lookup_insert_ne; [done |]. congruence.
Qed.

Lemma later_keeps w w' k blob :
  later w w' → cache w !! k = Some blob → cache w' !! k = Some blob.
Proof.
  induction 1 as [| D F args r w1 w2 _ IH Hstep
                  | callDataBytes config r w1 w2 _ IH Hstep]; intros Hk.
  - done.
  - eapply memoize_keeps; [exact Hstep | by apply IH].
  - unfold send in Hstep. injection Hstep as _ <-. simpl. by apply IH.
Qed.

(** C6. Once the envelope builder has returned a blob for a call list,
    then at any later time, asked for a call list with the same JSON text,
    it returns that blob and leaves the process as it is: the counter of
    the runs of [_makeMulticallData] has not moved. *)
Theorem same_serialisation_same_blob_no_rerun {D1 D2}
    `{EnvelopeFields D1} `{EnvelopeFields D2}
    (calls1 : list D1) (calls2 : list D2) (w w1 w2 : World) (blob : string) :
  JSON_stringify (JArr [JArr (map toJS calls1); JBool false])
  = JSON_stringify (JArr [JArr (map toJS calls2); JBool false]) →
  makeMulticallData (calls1, false) w = (Ok blob, w1) →
  later w1 w2 →
  makeMulticallData (calls2, false) w2 = (Ok blob, w2)
  ∧ ∀ w3, makeMulticallData (calls2, false) w2 = (Ok blob, w3) →
          encodings w3 = encodings w2.
Proof.
  intros Hkey Hfirst Hlater.
  assert (makeMulticallData (calls2, false) w2 = (Ok blob, w2)) as Hsecond.
  { unfold makeMulticallData. apply memoize_hit. simpl. rewrite <- Hkey.
    eapply later_keeps; [exact Hlater |].
    apply memoize_Ok_cached in Hfirst. exact Hfirst. }
  split; [done |]. intros w3. rewrite Hsecond. by intros [= <-].
Qed.

End Envelope.

(** ** [keyToArgMap] *)

Section KeyToArgMap.

Lemma inner_fold_lookup (args : list value) metas
    (acc : gmap string (list value)) k :
  foldl (λ acc' returnMeta, <[key returnMeta := args]> acc') acc metas !! k
  = if decide (k ∈ map key metas) then Some args else acc !! k.
Proof.
  revert acc. induction metas as [|m metas IH]; intros acc; simpl.
  - done.
  - rewrite IH. destruct (decide (k ∈ map key metas)) as [Hin|Hnin].
    + rewrite decide_True; [done | by right].
    + destruct (decide (key m = k)) as [<-|Hne].
      * rewrite lookup_insert_eq. rewrite decide_True; [done | by left].
      * rewrite lookup_insert_ne by done.
        rewrite decide_False; [done |].
        intros [?|?]%elem_of_cons; congruence.
Qed.

Lemma keyToArgMap_snoc calls c k :
  keyToArgMap_of (calls ++ [c]) !! k
  = if decide (feeds k c) then Some (call c).2
    else keyToArgMap_of calls !! k.
Proof.
  unfold keyToArgMap_of. rewrite foldl_app. simpl.
  unfold feeds. case_bool_decide as Hlen.
  - rewrite inner_fold_lookup.
    destruct (decide (k ∈ map key (returns c))) as [Hin|Hnin].
    + rewrite decide_True; [done |]. split; [| done].
      destruct (call c).2; [simpl in Hlen; lia | done].
    + rewrite decide_False; [done |]. by intros [_ ?].
  - rewrite decide_False; [done |]. intros [Hne _].
    destruct (call c).2; [done | simpl in Hlen; lia].
Qed.

Lemma keyToArgMap_is_Some calls k :
  is_Some (keyToArgMap_of calls !! k) ↔ ∃ c, c ∈ calls ∧ feeds k c.
Proof.
  induction calls as [|c calls IH] using rev_ind.
  - split; [by intros [? ?] | by intros (? & ?%not_elem_of_nil & _)].
  - rewrite keyToArgMap_snoc. destruct (decide (feeds k c)) as [Hf|Hnf].
    + split; [| done]. intros _. exists c. split; [| done].
      apply elem_of_app. right. by left.
    + rewrite IH. split.
      * intros (c' & Hin & Hf). exists c'. split; [| done].
        apply elem_of_app. by left.
      * intros (c' & [Hin|Hin%list_elem_of_singleton]%elem_of_app & Hf).
        -- by exists c'.
        -- by subst c'.
Qed.



End KeyToArgMap.

(** ** The final loop *)

Section Mapper.

Lemma assign_from_app i l1 l2 metas ret :
  assign_from i (l1 ++ l2) metas ret
  = (r ← assign_from i l1 metas ret; assign_from (i + length l1) l2 metas r).
Proof.
  revert i ret. induction l1 as [|v l1 IH]; intros i ret; simpl.
  - by rewrite Nat.add_0_r.
  - destruct (metas !! i) as [meta|]; [| done].
    rewrite IH. by replace (S i + length l1) with (i + S (length l1)) by lia.
Qed.

(** The loop ends without an exception exactly when every value has its
    return field. *)
Lemma assign_from_Ok vals metas ret :
  (length vals ≤ length metas)%nat → ∃ ret', assign_from 0 vals metas ret = Ok ret'.
Proof.
  induction vals as [|v vals IH] using rev_ind; intros Hlen.
  - by eexists.
  - rewrite length_app in Hlen. simpl in Hlen.
    rewrite assign_from_app. destruct IH as [r ->]; [lia |]. simpl.
    destruct (lookup_lt_is_Some_2 metas (length vals)) as [meta ->]; [lia |].
    by eexists.
Qed.

(** What the loop leaves in a dictionary it writes [g meta v] to. *)
Lemma assign_from_field (field : RetObj → gmap string value)
    (g : ReturnMeta → value → value) vals metas init ret k x :
  (∀ meta v r, field (assign meta v r) = <[key meta := g meta v]> (field r)) →
  field init !! k = None →
  assign_from 0 vals metas init = Ok ret →
  field ret !! k = Some x
  ↔ ∃ i meta v, last_position k metas (length vals) i
                ∧ metas !! i = Some meta ∧ vals !! i = Some v
                ∧ x = g meta v.
Proof.
  intros Hfield Hinit. revert ret x.
  induction vals as [|v vals IH] using rev_ind; intros ret x.
  - simpl. intros [= <-]. rewrite Hinit. split; [done |].
    intros (i & _ & _ & (Hlt & _) & _). simpl in Hlt. lia.
  - rewrite assign_from_app.
    destruct (assign_from 0 vals metas init) as [r|] eqn:Hr; simpl; [| done].
    destruct (metas !! length vals) as [meta|] eqn:Hmeta; [| done].
    intros [= <-]. rewrite Hfield, length_app. simpl.
    destruct (decide (key meta = k)) as [Hk|Hk].
    + subst k. rewrite lookup_insert_eq. split.
      * intros [= <-]. exists (length vals), meta, v.
        split; [| split; [done |]; split; [| done]].
        -- split; [lia |]. split; [by exists meta |]. intros; lia.
        -- by apply list_lookup_middle.
      * intros (i & meta' & v' & (Hlt & _ & Hlast) & Hi & Hv & ->).
        destruct (decide (i = length vals)) as [->|Hne].
        -- rewrite list_lookup_middle in Hv by done. congruence.
        -- exfalso. apply (Hlast (length vals) meta); [lia | lia | done | done].
    + rewrite lookup_insert_ne by done. rewrite (IH r x eq_refl). split.
      * intros (i & meta' & v' & (Hlt & Hkey & Hlast) & Hi & Hv & ->).
        exists i, meta', v'. split; [| split; [done |]; split; [| done]].
        -- split; [lia |]. split; [done |]. intros j meta'' Hij Hj Hm.
           destruct (decide (j = length vals)) as [->|Hne]; [congruence |].
           apply (Hlast j); [done | lia | done].
        -- by apply lookup_app_l_Some.
      * intros (i & meta' & v' & (Hlt & Hkey & Hlast) & Hi & Hv & ->).
        destruct (decide (i = length vals)) as [->|Hne].
        -- destruct Hkey as (m & Hm & Hmk). congruence.
        -- exists i, meta', v'. split; [| split; [done |]; split; [| done]].
           ++ split; [lia |]. split; [done |]. intros j meta'' Hij Hj Hm.
              apply (Hlast j); [done | lia | done].
           ++ rewrite lookup_app_l in Hv by lia. done.
Qed.


End Mapper.

(** ** The decoder *)

Section Decoder.
Context `{Collaborators}.




(** *** [aggregate], step by step *)

Lemma normalize_returns config c d :
  normalize config c = Ok d → d_returns d = returns c.
Proof.
  unfold normalize. destruct (call c) as [method argValues].
  destruct (parenthesised method); simpl; [| done].
  destruct (argTypes_of _); simpl; [| done].
  destruct (invariant _ _); simpl; [| done].
  destruct (JS.match_FIRST_CLOSING_PARENTHESES method); simpl; [| done].
  by intros [= <-].
Qed.

Lemma normalize_all_returns config calls ds :
  mapR (normalize config) calls = Ok ds →
  concat (map d_returns ds) = concat (map returns calls).
Proof.
  revert ds. induction calls as [|c calls IH]; simpl; intros ds.
  - by intros [= <-].
  - destruct (normalize config c) as [d|] eqn:Hd; simpl; [| done].
    destruct (mapR _ calls) as [ds'|]; simpl; [| done]. intros [= <-]. simpl.
    by rewrite (normalize_returns _ _ _ Hd), (IH _ eq_refl).
Qed.

Lemma aggregate_array_steps calls config w ds blob w1 outerResults :
  mapR (normalize config) calls = Ok ds →
  makeMulticallData (ds, false) w = (Ok blob, w1) →
  ethCall blob config (requests w1) = Ok outerResults →
  aggregate_array calls config w
  = (after_answer calls ds outerResults, sent blob config w1).
Proof.
  intros Hds Hblob Hanswer. unfold aggregate_array.
  rewrite (bind_lift_Ok _ _ ds) by done.
  unfold mbind at 1, M_bind at 1. rewrite Hblob.
  unfold mbind at 1, M_bind at 1, send at 1. rewrite Hanswer.
  unfold after_answer, sent, send. simpl.
  destruct (invariant _ _); simpl; [| done].
  unfold mbind at 1, M_bind at 1, lift at 1.
  destruct (decodeParameters _ _); simpl; [| done].
  unfold mbind at 1, M_bind at 1, lift at 1.
  destruct (parse _ _ _); simpl; [| done].
  unfold mbind at 1, M_bind at 1, lift at 1.
  by destruct (assign_from _ _ _ _).
Qed.

Lemma aggregate_array_fails_early calls config w ds :
  mapR (normalize config) calls = Ok ds →
  (∃ e w1, makeMulticallData (ds, false) w = (Err e, w1)
           ∧ aggregate_array calls config w = (Err e, w1))
  ∨ (∃ blob w1 e, makeMulticallData (ds, false) w = (Ok blob, w1)
                  ∧ ethCall blob config (requests w1) = Err e
                  ∧ aggregate_array calls config w
                    = (Err e, sent blob config w1))
  ∨ (∃ blob w1 outerResults,
       makeMulticallData (ds, false) w = (Ok blob, w1)
       ∧ ethCall blob config (requests w1) = Ok outerResults).
Proof.
  intros Hds.
  destruct (makeMulticallData (ds, false) w) as [[blob|e] w1] eqn:Hblob.
  - destruct (ethCall blob config (requests w1)) as [outer|e] eqn:Hanswer.
    + right. right. by exists blob, w1, outer.
    + right. left. exists blob, w1, e. split; [done |]. split; [done |].
      unfold aggregate_array. rewrite (bind_lift_Ok _ _ ds) by done.
      unfold mbind at 1, M_bind at 1. rewrite Hblob.
      unfold mbind at 1, M_bind at 1, send at 1. rewrite Hanswer.
      by unfold sent, send.
  - left. exists e, w1. split; [done |].
    unfold aggregate_array. rewrite (bind_lift_Ok _ _ ds) by done.
    unfold mbind at 1, M_bind at 1. by rewrite Hblob.
Qed.

(** C1, as the code has it.  When the declared return types of all the
    calls and the return fields of all the calls differ in number,
    [aggregate] fails; once the node has answered, it fails with the
    invariant error, before the answer is decoded and before any entry is
    written. *)
Theorem declared_arity_mismatch_fails
    (calls : OneOrMany Call) (config : Config) (w : World)
    (ds : list Descriptor) :
  mapR (normalize config) (arrayify calls) = Ok ds →
  length (concat (map returnTypes ds))
  ≠ length (concat (map returns (arrayify calls))) →
  (∃ e w', aggregate calls config w = (Err e, w'))
  ∧ ∀ blob w1 outerResults,
      makeMulticallData (ds, false) w = (Ok blob, w1) →
      ethCall blob config (requests w1) = Ok outerResults →
      aggregate calls config w
      = (Err (InvariantViolation "Missing data needed to parse results"),
         sent blob config w1).
Proof.
  intros Hds Hlen. rewrite <- (normalize_all_returns _ _ _ Hds) in Hlen.
  assert (∀ outerResults,
            after_answer (arrayify calls) ds outerResults
            = Err (InvariantViolation "Missing data needed to parse results"))
    as Hafter.
  { intros outer. unfold after_answer.
    by rewrite bool_decide_eq_false_2. }
  unfold aggregate. split.
  - destruct (aggregate_array_fails_early _ config w _ Hds)
      as [(e & w1 & _ & ->) | [(blob & w1 & e & _ & _ & ->)
                              | (blob & w1 & outer & Hblob & Hanswer)]].
    + by eexists _, _.
    + by eexists _, _.
    + rewrite (aggregate_array_steps _ _ _ _ _ _ _ Hds Hblob Hanswer).
      rewrite Hafter. by eexists _, _.
  - intros blob w1 outer Hblob Hanswer.
    rewrite (aggregate_array_steps _ _ _ _ _ _ _ Hds Hblob Hanswer).
    by rewrite Hafter.
Qed.

(** A result of [aggregate] went through every step. *)
Lemma aggregate_Ok_steps calls config w ret w' :
  aggregate calls config w = (Ok ret, w') →
  ∃ ds blob w1 outerResults,
    mapR (normalize config) (arrayify calls) = Ok ds
    ∧ makeMulticallData (ds, false) w = (Ok blob, w1)
    ∧ ethCall blob config (requests w1) = Ok outerResults
    ∧ after_answer (arrayify calls) ds outerResults = Ok ret
    ∧ w' = sent blob config w1.
Proof.
  unfold aggregate. intros Hagg.
  destruct (mapR (normalize config) (arrayify calls)) as [ds|e] eqn:Hds.
  - destruct (aggregate_array_fails_early _ config w _ Hds)
      as [(e & w1 & _ & He) | [(blob & w1 & e & _ & _ & He)
                              | (blob & w1 & outer & Hblob & Hanswer)]].
    + congruence.
    + congruence.
    + rewrite (aggregate_array_steps _ _ _ _ _ _ _ Hds Hblob Hanswer) in Hagg.
      injection Hagg as Hret <-. by exists ds, blob, w1, outer.
  - rewrite (aggregate_array_normalize_Err _ _ _ _ Hds) in Hagg. congruence.
Qed.

(** The dictionaries [aggregate] returns are those of the final loop, run on
    the parsed values and the return fields of the calls. *)
Lemma aggregate_Ok_last_write calls config w ret w' :
  aggregate calls config w = (Ok ret, w') →
  keyToArgMap ret = keyToArgMap_of (arrayify calls)
  ∧ ∃ parsedVals,
      ∀ k x,
        (original (results ret) !! k = Some x
         ↔ ∃ i meta v,
             last_position k (concat (map returns (arrayify calls)))
                           (length parsedVals) i
             ∧ concat (map returns (arrayify calls)) !! i = Some meta
             ∧ parsedVals !! i = Some v
             ∧ x = v)
        ∧ (transformed (results ret) !! k = Some x
           ↔ ∃ i meta v,
               last_position k (concat (map returns (arrayify calls)))
                             (length parsedVals) i
               ∧ concat (map returns (arrayify calls)) !! i = Some meta
               ∧ parsedVals !! i = Some v
               ∧ x = transformed_value meta v).
Proof.
  intros (ds & blob & w1 & outer & Hds & _ & _ & Hafter & _)%aggregate_Ok_steps.
  unfold after_answer in Hafter.
  destruct (invariant _ _); simpl in Hafter; [| done].
  destruct (decodeParameters _ _) as [decoded|]; simpl in Hafter; [| done].
  destruct (parse _ _ _) as [parsedVals|]; simpl in Hafter; [| done].
  rewrite (normalize_all_returns _ _ _ Hds) in Hafter.
  destruct (assign_from _ _ _ _) as [retObj|] eqn:Hloop; simpl in Hafter;
    [| done].
  injection Hafter as <-. simpl. split; [done |].
  exists parsedVals. intros k x. split.
  - by apply (assign_from_field original (λ _ v, v)) with (init := {|
      blockNumber := head decoded; original := ∅; transformed := ∅ |}).
  - by apply (assign_from_field transformed transformed_value) with (init := {|
      blockNumber := head decoded; original := ∅; transformed := ∅ |}).
Qed.

(** *** When the two counts agree

    With a decoder that yields a value for each type asked for, and an answer
    of one result blob for each call, as many values are decoded as there are
    declared return types. *)



End Decoder.

(** ** ABI mode: the dictionary of interfaces *)

Section AbiMode.
Context `{Collaborators}.










End AbiMode.

(** * The properties on concrete calls *)


Lemma signature_without_group_raises_TypeError_witness :
  JS.has_group "balanceOf" = false
  ∧ @aggregate Samples.node (Many [Samples.balanceOf; Samples.bare])
      Samples.config Samples.w0
    = (Err null_map, Samples.w0).
Proof.
  split; [reflexivity |].
  destruct (@signature_without_group_raises_TypeError Samples.node
              [Samples.balanceOf] [] Samples.bare Samples.config Samples.w0)
    as (_ & _ & _ & Hagg); [reflexivity |].
  eapply Hagg. reflexivity.
Defined.


Lemma same_serialisation_same_blob_no_rerun_witness :
  @JSON_stringify Samples.node
     (JArr [JArr (map toJS [Samples.balance_descriptor (Samples.doubled "a")]);
            JBool false])
  = @JSON_stringify Samples.node
      (JArr [JArr (map toJS [Samples.balance_descriptor (Samples.negated "a")]);
             JBool false])
  ∧ @makeMulticallData Samples.node _ _
      ([Samples.balance_descriptor (Samples.doubled "a")], false) Samples.w0
    = (Ok "0x0xTOKEN,0x012345670xABC", Samples.w1)
  ∧ @makeMulticallData Samples.node _ _
      ([Samples.balance_descriptor (Samples.negated "a")], false)
      (@sent Samples.node "0x0xTOKEN,0x012345670xABC" Samples.config Samples.w1)
    = (Ok "0x0xTOKEN,0x012345670xABC",
       @sent Samples.node "0x0xTOKEN,0x012345670xABC" Samples.config Samples.w1).
Proof.
  split; [reflexivity |]. split; [reflexivity |].
  eapply (@same_serialisation_same_blob_no_rerun Samples.node
            Descriptor Descriptor Descriptor_fields Descriptor_fields
            [Samples.balance_descriptor (Samples.doubled "a")]
            [Samples.balance_descriptor (Samples.negated "a")]
            Samples.w0 Samples.w1).
  - reflexivity.
  - reflexivity.
  - eapply later_request; [apply later_now | reflexivity].
Defined.



Lemma declared_arity_mismatch_fails_witness :
  mapR (@normalize Samples.node Samples.config) [Samples.getReserves]
  = Ok [{| method := "getReserves()";
           args := [];
           returnTypes := ["uint112"; "uint112"];
           d_target := "0xMULTICALL";
           d_returns := [Samples.field "reserve0"] |}]
  ∧ 2 ≠ 1
  ∧ (@aggregate Samples.node (Many [Samples.getReserves])
       Samples.config Samples.w0).1
    = Err (InvariantViolation "Missing data needed to parse results").
Proof.
  split; [reflexivity |]. split; [lia |].
  destruct (@declared_arity_mismatch_fails Samples.node
              (Many [Samples.getReserves]) Samples.config Samples.w0 _ eq_refl)
    as [_ Hagg]; [simpl; lia |].
  erewrite Hagg; [reflexivity | vm_compute; reflexivity | reflexivity].
Defined.

(** C1, as the claim has it, fails: the node answers two calls, of one
    declared return type and one return field each, with a single result
    blob.  One value is decoded for two return fields, yet [aggregate] returns
    a result, with an entry written for the first field and none for the
    second. *)
Lemma decoded_count_mismatch_goes_unnoticed :
  mapR (@normalize Samples.node Samples.config)
       [Samples.balanceOf; Samples.totalSupply]
  = Ok [Samples.balance_descriptor (Samples.field "a");
        {| method := "totalSupply()";
           args := [];
           returnTypes := ["uint256"];
           d_target := "0xTOKEN";
           d_returns := [Samples.field "b"] |}]
  ∧ @decodeParameters Samples.node [TypeName "uint256"; TypeName "bytes[]"]
      (VStr "0xresponse")
    = Ok [VNum 100; VArr [VStr "0x2a"]]
  ∧ @parse Samples.node
      [Samples.balance_descriptor (Samples.field "a");
       {| method := "totalSupply()";
          args := [];
          returnTypes := ["uint256"];
          d_target := "0xTOKEN";
          d_returns := [Samples.field "b"] |}]
      [VArr [VStr "0x2a"]] []
    = Ok [VStr "0x2a"]
  ∧ length [VStr "0x2a"]
    ≠ length (concat (map returns [Samples.balanceOf; Samples.totalSupply]))
  ∧ ∃ ret w',
      @aggregate Samples.node (Many [Samples.balanceOf; Samples.totalSupply])
        Samples.config Samples.w0
      = (Ok ret, w')
      ∧ blockNumber (results ret) = Some (VNum 100)
      ∧ original (results ret) !! "a" = Some (VStr "0x2a")
      ∧ original (results ret) !! "b" = None.
Proof.
  split; [reflexivity |]. split; [reflexivity |]. split; [reflexivity |].
  split; [simpl; lia |].
  eexists _, _. split; [vm_compute; reflexivity |].
  split; [reflexivity |]. split; reflexivity.
Qed.


(** * Further properties of the pipeline *)

(** ** What the two regular expressions match *)

Section RegexShapes.
Import JS.

Lemma lazy_dots_clean (s m rest : string) :
  lazy_dots_then_close s = Some (m, rest) →
  occurs ")" m = false ∧ occurs LF m = false ∧ occurs CR m = false.
Proof.
  revert m. induction s as [|c s IH]; simpl; [done |]. intros m.
  unfold is_close, is_line_terminator.
  case_bool_decide as Hc; [by intros [= <- <-] |].
  case_bool_decide as Hl; simpl; [done |].
  case_bool_decide as Hr; simpl; [done |].
  destruct (lazy_dots_then_close s) as [[m' r']|]; [| done].
  intros [= <- <-]. destruct (IH m' eq_refl) as (H1 & H2 & H3). simpl.
  rewrite H1, H2, H3.
  by rewrite !bool_decide_eq_false_2 by done.
Qed.

Lemma first_match_clean (s m rest : string) :
  first_match s = Some (m, rest) →
  ∃ a, m = "(" +:+ a +:+ ")"
       ∧ occurs ")" a = false ∧ occurs LF a = false ∧ occurs CR a = false.
Proof.
  induction s as [|c s IH]; [done |]. rewrite first_match_unfold.
  destruct (match_here (String c s)) as [[m' r']|] eqn:Hm; [| exact IH].
  intros ?; simplify_eq. simpl in Hm. unfold is_open in Hm.
  case_bool_decide; [| done].
  destruct (lazy_dots_then_close s) as [[a r]|] eqn:Hl; [| done].
  simplify_eq. exists a. split; [done |]. by eapply lazy_dots_clean.
Qed.

Lemma all_matches_clean (fuel : nat) (s : string) :
  Forall (λ m, ∃ a, m = "(" +:+ a +:+ ")"
                    ∧ occurs ")" a = false
                    ∧ occurs LF a = false ∧ occurs CR a = false)
         (all_matches fuel s).
Proof.
  revert s. induction fuel as [|fuel IH]; intros s; simpl; [constructor |].
  destruct (first_match s) as [[m rest]|] eqn:Hm; [| constructor].
  constructor; [by eapply first_match_clean | apply IH].
Qed.

(** X1. The groups found in a signature are never none (the match is [null]
    instead), and each is an opening parenthesis, a text without closing
    parenthesis and without line terminator, and a closing parenthesis; what
    [slice(1, -1)] keeps of it is that text. *)
Theorem groups_have_no_closing_parenthesis_inside (s : string)
    (ms : list string) :
  match_INSIDE_EVERY_PARENTHESES s = Some ms →
  ms ≠ []
  ∧ Forall (λ m, ∃ a, m = "(" +:+ a +:+ ")"
                      ∧ slice_1_m1 m = a
                      ∧ occurs ")" a = false
                      ∧ occurs LF a = false ∧ occurs CR a = false) ms.
Proof.
  unfold match_INSIDE_EVERY_PARENTHESES. intros Hms.
  assert (ms = all_matches (String.length s) s ∧ ms ≠ []) as [-> Hne].
  { destruct (all_matches (String.length s) s); [done |]. by simplify_eq. }
  split; [done |].
  eapply Forall_impl; [apply all_matches_clean |].
  intros m (a & -> & Hclean). exists a. split; [done |].
  split; [apply slice_of_group | done].
Qed.

Lemma first_closing_Some (s m : string) :
  match_FIRST_CLOSING_PARENTHESES s = Some m →
  ∃ p rest, occurs ")" p = false ∧ s = p +:+ ")" +:+ rest ∧ m = p +:+ ")".
Proof.
  revert m. induction s as [|c s IH]; simpl; [done |]. intros m.
  unfold is_close. case_bool_decide as Hc.
  - intros [= <-]. subst c. by exists "", s.
  - destruct (match_FIRST_CLOSING_PARENTHESES s) as [m'|]; [| done].
    intros [= <-]. destruct (IH m' eq_refl) as (p & rest & Hp & -> & ->).
    exists (String c p), rest. split; [| done]. simpl.
    by rewrite Hp, bool_decide_eq_false_2.
Qed.

(** X2. The anchored pattern matches exactly the strings that have a
    closing parenthesis, and what it matches is the string up to and with
    the first one. *)
Theorem first_closing_is_prefix_to_first_close (s : string) :
  (match_FIRST_CLOSING_PARENTHESES s = None ↔ occurs ")" s = false)
  ∧ ∀ m, match_FIRST_CLOSING_PARENTHESES s = Some m
         ↔ ∃ p rest, occurs ")" p = false
                     ∧ s = p +:+ ")" +:+ rest ∧ m = p +:+ ")".
Proof.
  split; [apply first_closing_None |]. intros m. split.
  - apply first_closing_Some.
  - intros (p & rest & Hp & -> & ->). by apply first_closing_prefix.
Qed.

End RegexShapes.

Lemma groups_have_no_closing_parenthesis_inside_witness :
  JS.match_INSIDE_EVERY_PARENTHESES "swap((uint256,address))(bool)"
  = Some ["((uint256,address)"; "(bool)"]
  ∧ Forall (λ m, ∃ a, m = "(" +:+ a +:+ ")"
                      ∧ JS.slice_1_m1 m = a
                      ∧ JS.occurs ")" a = false
                      ∧ JS.occurs JS.LF a = false ∧ JS.occurs JS.CR a = false)
           ["((uint256,address)"; "(bool)"].
Proof.
  split; [reflexivity |].
  apply (groups_have_no_closing_parenthesis_inside
           "swap((uint256,address))(bool)"). reflexivity.
Defined.

(** ** The descriptor of a normalised call *)

Section Descriptors.
Context `{Collaborators}.

(** What went right when the normaliser returns. *)
Lemma normalize_Ok_inv config c d :
  normalize config c = Ok d →
  ∃ groups argTypes m,
    parenthesised (call c).1 = Ok groups
    ∧ argTypes_of groups = Ok argTypes
    ∧ length argTypes = length (call c).2
    ∧ JS.match_FIRST_CLOSING_PARENTHESES (call c).1 = Some m
    ∧ d = {| method := m;
             args := zip (call c).2 argTypes;
             returnTypes := returnTypes_of groups;
             d_target := if falsy (target c) then multicallAddress config
                         else property_key (target c);
             d_returns := returns c |}.
Proof.
  unfold normalize. destruct (call c) as [method argValues]. simpl.
  destruct (parenthesised method) as [groups|]; simpl; [| done].
  destruct (argTypes_of groups) as [argTypes|] eqn:Ha; simpl; [| done].
  unfold invariant. case_bool_decide as Hlen; simpl; [| done].
  destruct (JS.match_FIRST_CLOSING_PARENTHESES method) as [m|]; simpl; [| done].
  intros [= <-]. by exists groups, argTypes, m.
Qed.

Lemma argTypes_of_nonempty groups argTypes :
  argTypes_of groups = Ok argTypes → Forall (λ t, t ≠ "") argTypes.
Proof.
  unfold argTypes_of. destruct (groups !! 0) as [s|]; [| done].
  intros [= <-]. apply Forall_forall. intros t [Ht _]%list_elem_of_filter.
  unfold JS.truthy in Ht. intros ->. by rewrite bool_decide_eq_true_2 in Ht.
Qed.

(** X3. The descriptor of a call that normalises holds the argument values
    of the call in their order, each paired with a type that is not the empty
    string; the return fields of the call as they were; the target of the
    call, or the multicall address when the call has none or an empty one;
    and as its method a prefix of the signature that ends at its first
    closing parenthesis. *)
Theorem descriptor_of_normalised_call (config : Config) (c : Call)
    (d : Descriptor) :
  normalize config c = Ok d →
  map fst (args d) = (call c).2
  ∧ Forall (λ a, a.2 ≠ "") (args d)
  ∧ d_returns d = returns c
  ∧ d_target d = (if falsy (target c) then multicallAddress config
                  else property_key (target c))
  ∧ ∃ p rest, JS.occurs ")" p = false
              ∧ method d = p +:+ ")"
              ∧ (call c).1 = method d +:+ rest.
Proof.
  intros (groups & argTypes & m & _ & Ha & Hlen & Hm & ->)%normalize_Ok_inv.
  simpl. split; [by rewrite fst_zip by lia |].
  split.
  - apply Forall_forall. intros [v t] Hin. simpl.
    apply argTypes_of_nonempty in Ha.
    rewrite Forall_forall in Ha. apply Ha.
    apply (elem_of_zip_r _ _ _ _ Hin).
  - split; [done |]. split; [done |].
    apply first_closing_Some in Hm as (p & rest & Hp & Hs & ->).
    exists p, rest. split; [done |]. split; [done |].
    by rewrite Hs, append_assoc.
Qed.

(** X4. A call without argument values that normalises has the selector
    alone as its call data: the codec is not asked. *)
Theorem call_without_arguments_sends_selector_only (config : Config)
    (c : Call) (d : Descriptor) :
  normalize config c = Ok d → (call c).2 = [] →
  callData d = Ok (VArr [VStr (d_target d); VStr (selector (method d))]).
Proof.
  intros (groups & argTypes & m & _ & _ & _ & _ & ->)%normalize_Ok_inv Hnone.
  unfold callData. simpl. rewrite Hnone. simpl.
  by rewrite append_empty_r.
Qed.

(** The groups of a signature [name(a)rest]: the group of [a], then the
    groups of [rest]. *)
Lemma groups_of_signature (name a rest : string) :
  JS.occurs "(" name = false →
  JS.occurs ")" a = false → JS.occurs JS.LF a = false →
  JS.occurs JS.CR a = false →
  parenthesised (name +:+ "(" +:+ a +:+ ")" +:+ rest)
  = Ok (a :: map JS.slice_1_m1 (JS.all_matches (String.length rest) rest)).
Proof.
  intros Hn Ha Hl Hr. unfold parenthesised, JS.match_INSIDE_EVERY_PARENTHESES.
  destruct (String.length _) as [|n] eqn:Hlen.
  { rewrite length_append in Hlen. simpl in Hlen. lia. }
  simpl. rewrite first_match_arguments by done. simpl.
  rewrite slice_of_group. do 3 f_equal.
  apply all_matches_fuel_enough; [| done].
  rewrite !length_append in Hlen. simpl in Hlen. lia.
Qed.

(** X5. For a signature [name(a)rest] that normalises: when [rest] has no
    group the descriptor has no return types; when [rest] starts with a group
    [(r)] its return types are the comma-separated entries of [r], the empty
    ones kept, and none when [r] is empty. *)
Theorem return_types_of_signature (config : Config) (c : Call)
    (d : Descriptor) (name a rest : string) :
  (call c).1 = name +:+ "(" +:+ a +:+ ")" +:+ rest →
  JS.occurs "(" name = false →
  JS.occurs ")" a = false → JS.occurs JS.LF a = false →
  JS.occurs JS.CR a = false →
  normalize config c = Ok d →
  (JS.has_group rest = false → returnTypes d = [])
  ∧ ∀ r tail,
      rest = "(" +:+ r +:+ ")" +:+ tail →
      JS.occurs ")" r = false → JS.occurs JS.LF r = false →
      JS.occurs JS.CR r = false →
      returnTypes d = if JS.truthy r then JS.split_comma r else [].
Proof.
  intros Hcall Hn Ha Hl Hr
    (groups & argTypes & m & Hg & _ & _ & _ & ->)%normalize_Ok_inv.
  rewrite Hcall, groups_of_signature in Hg by done.
  injection Hg as <-. simpl. unfold returnTypes_of. split.
  - intros Hnone%no_group_no_match.
    unfold JS.match_INSIDE_EVERY_PARENTHESES in Hnone.
    by destruct (JS.all_matches (String.length rest) rest).
  - intros r tail -> Hr1 Hr2 Hr3.
    pose proof (groups_of_signature "" r tail eq_refl Hr1 Hr2 Hr3) as Hg.
    unfold parenthesised, JS.match_INSIDE_EVERY_PARENTHESES in Hg.
    rewrite append_nil in Hg.
    destruct (JS.all_matches _ _) as [|m0 ms]; [done |].
    injection Hg as Hm0 _. simpl. by rewrite Hm0.
Qed.

End Descriptors.

Lemma descriptor_of_normalised_call_witness :
  @normalize Samples.node Samples.config Samples.balanceOf
  = Ok (Samples.balance_descriptor (Samples.field "a"))
  ∧ map fst (args (Samples.balance_descriptor (Samples.field "a")))
    = [VStr "0xABC"]
  ∧ Forall (λ a, a.2 ≠ "")
           (args (Samples.balance_descriptor (Samples.field "a"))).
Proof.
  split; [reflexivity |].
  destruct (@descriptor_of_normalised_call Samples.node Samples.config
              Samples.balanceOf
              (Samples.balance_descriptor (Samples.field "a")) eq_refl)
    as (Hvalues & Htypes & _).
  split; [exact Hvalues | exact Htypes].
Defined.

Lemma call_without_arguments_sends_selector_only_witness :
  @normalize Samples.node Samples.config Samples.totalSupply
  = Ok Samples.totalSupply_descriptor
  ∧ @callData Samples.node _ _ Samples.totalSupply_descriptor
    = Ok (VArr [VStr "0xTOKEN";
                VStr (@selector Samples.node "totalSupply()")]).
Proof.
  split; [reflexivity |].
  apply (@call_without_arguments_sends_selector_only Samples.node
           Samples.config Samples.totalSupply Samples.totalSupply_descriptor);
    reflexivity.
Defined.

Lemma return_types_of_signature_witness :
  @normalize Samples.node Samples.config Samples.slot0
  = Ok Samples.slot0_descriptor
  ∧ returnTypes Samples.slot0_descriptor = ["uint160"; ""; "bool"]
  ∧ JS.split_comma "uint160,,bool" = ["uint160"; ""; "bool"].
Proof.
  split; [reflexivity |].
  destruct (@return_types_of_signature Samples.node Samples.config
              Samples.slot0 Samples.slot0_descriptor
              "slot0" "" "(uint160,,bool)")
    as [_ Hreturns]; try reflexivity.
  split; [| reflexivity].
  apply (Hreturns "uint160,,bool" ""); reflexivity.
Defined.

(** ** The method string of the ABI mode, read as a signature *)

Section BetweenModes.
Context `{Collaborators}.

Lemma split_comma_single (t : string) :
  JS.occurs "," t = false → JS.split_comma t = [t].
Proof.
  induction t as [|c t IH]; simpl; [done |].
  intros [Hc Ht]%orb_false_elim. rewrite Hc. by rewrite IH.
Qed.

Lemma split_comma_entry (t s : string) :
  JS.occurs "," t = false →
  JS.split_comma (t +:+ "," +:+ s) = t :: JS.split_comma s.
Proof.
  induction t as [|c t IH]; [done |]. rewrite (append_cons c t). simpl.
  intros [Hc Ht]%orb_false_elim. rewrite Hc. by rewrite IH.
Qed.

(** [split(',')] undoes [join(',')] on entries without comma. *)
Lemma split_join (l : list string) :
  l ≠ [] → Forall (λ t, JS.occurs "," t = false) l →
  JS.split_comma (JS.join_comma l) = l.
Proof.
  induction l as [|t l IH]; [done |]. intros _ Hall.
  apply Forall_cons in Hall as [Ht Hl]. destruct l as [|t' l].
  - simpl. by apply split_comma_single.
  - change (JS.join_comma (t :: t' :: l))
      with (t +:+ "," +:+ JS.join_comma (t' :: l)).
    rewrite split_comma_entry by done. f_equal. by apply IH.
Qed.

Lemma filter_keeps_all {A} (P : A → Prop) `{∀ x, Decision (P x)}
    (l : list A) :
  Forall P l → filter P l = l.
Proof.
  induction 1 as [|x l Hx _ IH]; [done |].
  rewrite filter_cons_True by done. by f_equal.
Qed.

Lemma filter_split_join (l : list string) :
  Forall (λ t, t ≠ "" ∧ JS.occurs "," t = false) l →
  filter (λ e, Is_true (JS.truthy e)) (JS.split_comma (JS.join_comma l)) = l.
Proof.
  intros Hall. destruct l as [|t l]; [done |].
  rewrite split_join; [| done | by eapply Forall_impl; [exact Hall |]; intros ? []].
  apply filter_keeps_all. eapply Forall_impl; [exact Hall |].
  intros s [Hs _]. unfold JS.truthy. by rewrite bool_decide_eq_false_2.
Qed.

Lemma occurs_join (c : ascii) (l : list string) :
  c ≠ ","%char → Forall (λ t, JS.occurs c t = false) l →
  JS.occurs c (JS.join_comma l) = false.
Proof.
  intros Hc. induction l as [|t l IH]; [done |]. intros Hall.
  apply Forall_cons in Hall as [Ht Hl]. destruct l as [|t' l]; [done |].
  change (JS.join_comma (t :: t' :: l))
    with (t +:+ "," +:+ JS.join_comma (t' :: l)).
  rewrite !occurs_append, Ht, IH by done. simpl.
  by rewrite bool_decide_eq_false_2 by congruence.
Qed.

(** The descriptor of a signature [name(a)rest]. *)
Lemma normalize_signature config c name a rest :
  (call c).1 = name +:+ "(" +:+ a +:+ ")" +:+ rest →
  JS.occurs "(" name = false → JS.occurs ")" name = false →
  JS.occurs ")" a = false → JS.occurs JS.LF a = false →
  JS.occurs JS.CR a = false →
  length (filter (λ e, Is_true (JS.truthy e)) (JS.split_comma a))
  = length (call c).2 →
  normalize config c
  = Ok {| method := name +:+ "(" +:+ a +:+ ")";
          args := zip (call c).2
                      (filter (λ e, Is_true (JS.truthy e)) (JS.split_comma a));
          returnTypes :=
            returnTypes_of
              (a :: map JS.slice_1_m1
                      (JS.all_matches (String.length rest) rest));
          d_target := if falsy (target c) then multicallAddress config
                      else property_key (target c);
          d_returns := returns c |}.
Proof.
  intros Hcall Hopen Hclose Ha Hl Hr Hlen. unfold normalize.
  destruct (call c) as [method argValues]. simpl in *. subst method.
  rewrite groups_of_signature by done. simpl.
  rewrite bool_decide_eq_true_2 by done. simpl.
  replace (name +:+ "(" +:+ a +:+ ")" +:+ rest)
    with ((name +:+ "(" +:+ a) +:+ ")" +:+ rest)
    by (by rewrite !append_assoc).
  rewrite first_closing_prefix
    by (rewrite !occurs_append, Hclose, Ha; reflexivity).
  simpl. by rewrite !append_assoc.
Qed.

Lemma abi_normalize_Ok_inv i config (c : ABI.Call) (d : ABI.Descriptor) :
  ABI.normalize_with (Some i) config c = Ok d →
  ∃ f, getFunction i (ABI.call c).1 = Ok f
       ∧ length (map type (inputs f)) = length (ABI.call c).2
       ∧ d = {| ABI.method := (ABI.call c).1 +:+ "("
                              +:+ JS.join_comma (map type (inputs f)) +:+ ")";
                ABI.args := zip (ABI.call c).2 (map type (inputs f));
                ABI.d_target := if falsy (ABI.target c)
                                then multicallAddress config
                                else property_key (ABI.target c) |}.
Proof.
  unfold ABI.normalize_with. destruct (ABI.call c) as [method argValues].
  simpl. destruct (getFunction i method) as [f|]; simpl; [| done].
  unfold invariant. case_bool_decide as Hlen; simpl; [| done].
  intros [= <-]. by exists f.
Qed.

(** X6. The method string the ABI mode builds for a call, given to the
    signature mode as the signature of a call of the same argument values and
    target, normalises to a descriptor of the same method, arguments and
    target, without return types: provided the method name has no parenthesis
    and the resolved types are not empty and have no comma, closing
    parenthesis or line terminator. *)
Theorem abi_method_string_normalises_to_itself
    (i : Interface) (config : Config) (c : ABI.Call) (d : ABI.Descriptor)
    (returns : list ReturnMeta) :
  ABI.normalize_with (Some i) config c = Ok d →
  JS.occurs "(" (ABI.call c).1 = false →
  JS.occurs ")" (ABI.call c).1 = false →
  Forall (λ t, t ≠ "" ∧ JS.occurs "," t = false ∧ JS.occurs ")" t = false
               ∧ JS.occurs JS.LF t = false ∧ JS.occurs JS.CR t = false)
         (map snd (ABI.args d)) →
  ∃ d', normalize config {| call := (ABI.method d, (ABI.call c).2);
                            target := ABI.target c;
                            returns := returns |} = Ok d'
        ∧ method d' = ABI.method d
        ∧ args d' = ABI.args d
        ∧ d_target d' = ABI.d_target d
        ∧ returnTypes d' = [].
Proof.
  intros (f & _ & Hlen & ->)%abi_normalize_Ok_inv Hopen Hclose Htypes.
  simpl in *. rewrite snd_zip in Htypes by lia.
  set (types := map type (inputs f)) in *.
  assert (filter (λ e, Is_true (JS.truthy e))
            (JS.split_comma (JS.join_comma types)) = types) as Hback.
  { apply filter_split_join. eapply Forall_impl; [exact Htypes |].
    by intros t (? & ? & _). }
  eexists. split.
  - apply (normalize_signature _ _ (ABI.call c).1 (JS.join_comma types) "");
      simpl; try done.
    + apply occurs_join; [done |]. eapply Forall_impl; [exact Htypes |].
      by intros t (_ & _ & ? & _).
    + apply occurs_join; [done |]. eapply Forall_impl; [exact Htypes |].
      by intros t (_ & _ & _ & ? & _).
    + apply occurs_join; [done |]. eapply Forall_impl; [exact Htypes |].
      by intros t (_ & _ & _ & _ & ?).
    + by rewrite Hback.
  - simpl. by rewrite Hback.
Qed.

End BetweenModes.

(** ** The final loop at its bounds *)

Section LoopBounds.

Lemma assign_from_Ok_length i todo metas ret ret' :
  assign_from i todo metas ret = Ok ret' →
  (length todo ≤ length metas - i)%nat.
Proof.
  revert i ret. induction todo as [|v todo IH]; intros i ret; simpl; [lia |].
  destruct (metas !! i) as [meta|] eqn:Hi; [| done].
  apply lookup_lt_Some in Hi. intros Hrest%IH. lia.
Qed.

Lemma assign_from_Err i todo metas ret e :
  assign_from i todo metas ret = Err e →
  e = TypeError "undefined is not iterable".
Proof.
  revert i ret. induction todo as [|v todo IH]; intros i ret; simpl; [done |].
  destruct (metas !! i) as [meta|]; [apply IH | by intros [= <-]].
Qed.

Lemma assign_from_blockNumber i todo metas ret ret' :
  assign_from i todo metas ret = Ok ret' → blockNumber ret' = blockNumber ret.
Proof.
  revert i ret. induction todo as [|v todo IH]; intros i ret; simpl.
  - by intros [= <-].
  - destruct (metas !! i) as [meta|]; [| done]. intros Hrest%IH. by rewrite Hrest.
Qed.

(** X7. The final loop ends without an exception exactly when there are no
    more parsed values than return fields; with more, it raises the TypeError
    of destructuring [undefined]. *)
Theorem final_loop_needs_a_field_for_each_value
    (parsedVals : list value) (returnDataMeta : list ReturnMeta)
    (retObj : RetObj) :
  ((∃ retObj', assign_from 0 parsedVals returnDataMeta retObj = Ok retObj')
   ↔ (length parsedVals ≤ length returnDataMeta)%nat)
  ∧ ((length returnDataMeta < length parsedVals)%nat
     ↔ assign_from 0 parsedVals returnDataMeta retObj
       = Err (TypeError "undefined is not iterable")).
Proof.
  assert ((∃ retObj', assign_from 0 parsedVals returnDataMeta retObj
                      = Ok retObj')
          ↔ (length parsedVals ≤ length returnDataMeta)%nat) as Hiff.
  { split; [| apply assign_from_Ok].
    intros [retObj' Hok%assign_from_Ok_length]. lia. }
  split; [exact Hiff |]. split.
  - intros Hlt.
    destruct (assign_from 0 parsedVals returnDataMeta retObj) as [r|e] eqn:Hr.
    + apply assign_from_Ok_length in Hr. lia.
    + by rewrite (assign_from_Err _ _ _ _ _ Hr).
  - intros Herr. apply Nat.nlt_ge. intros Hle.
    assert (length parsedVals ≤ length returnDataMeta)%nat as Hle' by lia.
    apply Hiff in Hle' as [r Hr]. congruence.
Qed.

(** X8. When the final loop ends, the block number is the one it started
    with, [original] and [transformed] have the same keys, and when none of
    the return fields that got a value has a transform the two dictionaries
    are equal. *)
Theorem mappings_share_keys
    (parsedVals : list value) (returnDataMeta : list ReturnMeta)
    (blockNumber' : option value) (retObj : RetObj) :
  assign_from 0 parsedVals returnDataMeta
    {| blockNumber := blockNumber'; original := ∅; transformed := ∅ |}
  = Ok retObj →
  blockNumber retObj = blockNumber'
  ∧ dom (original retObj) = dom (transformed retObj)
  ∧ (Forall (λ meta, transform meta = None)
            (take (length parsedVals) returnDataMeta) →
     transformed retObj = original retObj).
Proof.
  intros Hloop.
  pose proof (λ k x, assign_from_field original (λ _ v, v) _ _ _ _ k x
                       (λ _ _ _, eq_refl) (lookup_empty k) Hloop) as Ho.
  pose proof (λ k x, assign_from_field transformed transformed_value
                       _ _ _ _ k x
                       (λ _ _ _, eq_refl) (lookup_empty k) Hloop) as Ht.
  split; [by rewrite (assign_from_blockNumber _ _ _ _ _ Hloop) |]. split.
  - apply set_eq. intros k. rewrite !elem_of_dom. split.
    + intros [x (i & meta & v & Hlast & Hm & Hv & _)%Ho].
      exists (transformed_value meta v). apply Ht. by exists i, meta, v.
    + intros [x (i & meta & v & Hlast & Hm & Hv & _)%Ht].
      exists v. apply Ho. by exists i, meta, v.
  - intros Hnone. apply map_eq. intros k. apply option_eq. intros x.
    rewrite Ho, Ht. split.
    + intros (i & meta & v & Hlast & Hm & Hv & ->).
      exists i, meta, v. split; [done |]. split; [done |]. split; [done |].
      unfold transformed_value.
      assert (transform meta = None) as ->; [| done].
      rewrite Forall_forall in Hnone. apply Hnone.
      apply list_elem_of_lookup. exists i.
      rewrite lookup_take_lt; [done |]. by apply lookup_lt_Some in Hv.
    + intros (i & meta & v & Hlast & Hm & Hv & ->).
      exists i, meta, v. split; [done |]. split; [done |]. split; [done |].
      unfold transformed_value.
      assert (transform meta = None) as ->; [| done].
      rewrite Forall_forall in Hnone. apply Hnone.
      apply list_elem_of_lookup. exists i.
      rewrite lookup_take_lt; [done |]. by apply lookup_lt_Some in Hv.
Qed.

End LoopBounds.

(** ** The answer of the node against the calls *)

Section Answers.
Context `{Collaborators}.

Lemma forEach_results_too_many calls idx rs acc :
  (length calls < idx + length rs)%nat → rs ≠ [] →
  (∃ e, forEach_results calls idx rs acc = Err e)
  ∧ ((∀ i c r, calls !! (idx + i) = Some c → rs !! i = Some r →
               ∃ vs, decodeParameters (map TypeName (returnTypes c)) r = Ok vs) →
     forEach_results calls idx rs acc
     = Err (TypeError
              "Cannot read properties of undefined (reading 'returnTypes')")).
Proof.
  revert idx acc. induction rs as [|r rs IH]; intros idx acc Hlen Hne; [done |].
  simpl. unfold decode_call.
  destruct (calls !! idx) as [c|] eqn:Hc; simpl.
  - apply lookup_lt_Some in Hc as Hlt.
    assert (rs ≠ []) as Hrs.
    { intros ->. simpl in Hlen. lia. }
    destruct (decodeParameters _ r) as [vs|e] eqn:Hvs; simpl.
    + destruct (IH (S idx) (acc ++ imap (λ j r0, coerce (returnTypes c !! j) r0) vs)%list)
        as [Herr Htype]; [simpl in Hlen; lia | done |].
      split; [done |]. intros Hdec. apply Htype. intros i c' r' Hc' Hr'.
      apply (Hdec (S i)); [| done].
      by replace (idx + S i) with (S idx + i) by lia.
    + split; [by eexists |]. intros Hdec.
      destruct (Hdec 0 c r) as [vs Hvs']; [by rewrite Nat.add_0_r | done |].
      congruence.
  - split; [by eexists | done].
Qed.

(** X9. An answer with more result blobs than there are calls never gives
    parsed values: decoding raises, and when the blobs of the calls decode it
    raises the TypeError of reading [returnTypes] of a call that is not
    there. *)
Theorem more_blobs_than_calls_raises
    (calls : list Descriptor) (rs rest acc : list value) :
  (length calls < length rs)%nat →
  (∃ e, parse calls (VArr rs :: rest) acc = Err e)
  ∧ ((∀ i c r, calls !! i = Some c → rs !! i = Some r →
               ∃ vs, decodeParameters (map TypeName (returnTypes c)) r = Ok vs) →
     parse calls (VArr rs :: rest) acc
     = Err (TypeError
              "Cannot read properties of undefined (reading 'returnTypes')")).
Proof.
  intros Hlen. simpl.
  destruct (forEach_results_too_many calls 0 rs acc) as [[e He] Htype].
  { simpl. lia. }
  { intros ->. simpl in Hlen. lia. }
  split.
  - exists e. by rewrite He.
  - intros Hdec. by rewrite Htype.
Qed.

(** *** What [aggregate] does to the process *)

Lemma memoize_effects {A} (func : A → result string) resolver args w r w' :
  memoize func resolver args w = (r, w') →
  requests w' = requests w
  ∧ (encodings w ≤ encodings w')%nat ∧ (encodings w' ≤ S (encodings w))%nat.
Proof.
  unfold memoize. destruct (cache w !! resolver args).
  - intros [= <- <-]. split; [done |]. lia.
  - destruct (func args); intros [= <- <-]; simpl; (split; [done |]); lia.
Qed.

(** X10. An invocation of [aggregate] sends no request or one.  With none
    it fails.  The one it sends carries the envelope that is then in the
    cache under the JSON text of the normalised calls, and is sent with the
    configuration it was given.  It runs [_makeMulticallData] at most once,
    and takes nothing out of the cache. *)
Theorem aggregate_sends_the_cached_envelope_once
    (calls : OneOrMany Call) (config : Config) (w : World) :
  ((requests (aggregate calls config w).2 = requests w
    ∧ ∃ e, (aggregate calls config w).1 = Err e)
   ∨ ∃ ds blob,
       mapR (normalize config) (arrayify calls) = Ok ds
       ∧ requests (aggregate calls config w).2
         = (requests w ++ [(blob, config)])%list
       ∧ cache (aggregate calls config w).2
           !! JSON_stringify (JArr [JArr (map toJS ds); JBool false])
         = Some blob)
  ∧ (encodings w ≤ encodings (aggregate calls config w).2)%nat
  ∧ (encodings (aggregate calls config w).2 ≤ S (encodings w))%nat
  ∧ ∀ k blob, cache w !! k = Some blob →
              cache (aggregate calls config w).2 !! k = Some blob.
Proof.
  unfold aggregate.
  destruct (mapR (normalize config) (arrayify calls)) as [ds|e] eqn:Hds.
  - destruct (aggregate_array_fails_early _ config w _ Hds)
      as [(e & w1 & Hblob & ->) | [(blob & w1 & e & Hblob & _ & ->)
                                  | (blob & w1 & outer & Hblob & Hanswer)]].
    + destruct (memoize_effects _ _ _ _ _ _ Hblob) as (Hr & He1 & He2).
      simpl. split; [left; split; [done | by eexists] |].
      split; [done |]. split; [done |].
      intros k b. by apply (memoize_keeps _ _ _ _ _ _ _ _ Hblob).
    + destruct (memoize_effects _ _ _ _ _ _ Hblob) as (Hr & He1 & He2).
      simpl. split.
      * right. exists ds, blob. split; [done |]. rewrite Hr. split; [done |].
        by apply (memoize_Ok_cached _ _ _ _ _ _ Hblob).
      * split; [done |]. split; [done |].
        intros k b. by apply (memoize_keeps _ _ _ _ _ _ _ _ Hblob).
    + rewrite (aggregate_array_steps _ _ _ _ _ _ _ Hds Hblob Hanswer).
      destruct (memoize_effects _ _ _ _ _ _ Hblob) as (Hr & He1 & He2).
      simpl. split.
      * right. exists ds, blob. split; [done |]. rewrite Hr. split; [done |].
        by apply (memoize_Ok_cached _ _ _ _ _ _ Hblob).
      * split; [done |]. split; [done |].
        intros k b. by apply (memoize_keeps _ _ _ _ _ _ _ _ Hblob).
  - rewrite (aggregate_array_normalize_Err _ _ _ _ Hds). simpl.
    split; [left; split; [done | by eexists] |]. split; [lia |].
    split; [lia | done].
Qed.

(** X11. The keys of what [aggregate] returns are keys the calls asked
    for: an entry of [original], of [transformed] or of [keyToArgMap] has the
    key of a return field of some call. *)
Theorem aggregate_writes_requested_keys_only
    (calls : OneOrMany Call) (config : Config) (w w' : World)
    (ret : AggregateReturn) (k : string) :
  aggregate calls config w = (Ok ret, w') →
  is_Some (original (results ret) !! k)
  ∨ is_Some (transformed (results ret) !! k)
  ∨ is_Some (keyToArgMap ret !! k) →
  ∃ c, c ∈ arrayify calls ∧ k ∈ map key (returns c).
Proof.
  intros [Hmap [parsedVals Hspec]]%aggregate_Ok_last_write Hk.
  assert (∀ i meta,
            concat (map returns (arrayify calls)) !! i = Some meta →
            key meta = k →
            ∃ c, c ∈ arrayify calls ∧ k ∈ map key (returns c)) as Hfield.
  { intros i meta Hi <-.
    assert (In meta (concat (map returns (arrayify calls)))) as Hin.
    { apply list_elem_of_In, list_elem_of_lookup. by exists i. }
    apply in_concat in Hin as (metas & Hmetas & Hmeta).
    apply in_map_iff in Hmetas as (c & <- & Hc).
    exists c. split; [by apply list_elem_of_In |].
    apply list_elem_of_In, in_map, Hmeta. }
  destruct Hk as [[x Hx] | [[x Hx] | Hx]].
  - apply (proj1 (Hspec k x)) in Hx as (i & meta & v & (_ & (m & Hm & Hkey) & _) & _).
    by apply (Hfield i m).
  - apply (proj2 (Hspec k x)) in Hx as (i & meta & v & (_ & (m & Hm & Hkey) & _) & _).
    by apply (Hfield i m).
  - rewrite Hmap in Hx. apply keyToArgMap_is_Some in Hx as (c & Hc & _ & Hin).
    by exists c.
Qed.

End Answers.

(** ** The envelope reads three fields *)

Section ThreeFields.
Context `{Collaborators}.

Lemma callData_three_fields {D1 D2} `{EnvelopeFields D1} `{EnvelopeFields D2}
    (d1 : D1) (d2 : D2) :
  target_of d1 = target_of d2 → method_of d1 = method_of d2 →
  args_of d1 = args_of d2 →
  callData d1 = callData d2.
Proof. intros Ht Hm Ha. unfold callData. by rewrite Ht, Hm, Ha. Qed.

Lemma mapR_ext_Forall2 {A1 A2 B} (f : A1 → result B) (g : A2 → result B) l1 l2 :
  Forall2 (λ x y, f x = g y) l1 l2 → mapR f l1 = mapR g l2.
Proof.
  induction 1 as [|x y l1 l2 Hxy _ IH]; simpl; [done |]. by rewrite Hxy, IH.
Qed.

(** X12. Two call lists that agree, call by call, on target, method and
    arguments have the same envelope, in whichever mode they were made and
    whatever their return types and return fields are. *)
Theorem envelope_depends_on_target_method_args
    {D1 D2} `{EnvelopeFields D1} `{EnvelopeFields D2}
    (calls1 : list D1) (calls2 : list D2) :
  Forall2 (λ d1 d2, target_of d1 = target_of d2
                    ∧ method_of d1 = method_of d2
                    ∧ args_of d1 = args_of d2) calls1 calls2 →
  _makeMulticallData calls1 = _makeMulticallData calls2.
Proof.
  intros Hsame. unfold _makeMulticallData.
  rewrite (mapR_ext_Forall2 callData callData calls1 calls2); [done |].
  eapply Forall2_impl; [exact Hsame |].
  intros d1 d2 (Ht & Hm & Ha). by apply callData_three_fields.
Qed.

End ThreeFields.

(** ** ABI mode: arity and results *)

Section AbiResults.
Context `{Collaborators}.

Lemma abi_entries_Err calls config w e :
  ABI.entries_of calls = Err e →
  ABI.aggregateDecodedFromABI_array calls config w = (Err e, w).
Proof.
  intros He. unfold ABI.aggregateDecodedFromABI_array.
  by apply bind_lift_Err.
Qed.






End AbiResults.

(** ** Errors of the collaborators *)

Section CollaboratorErrors.
Context `{Collaborators}.

(** X15. An envelope that could not be built is not kept: the cache is as
    it was, [_makeMulticallData] has run once, and asked again for the same
    calls the builder runs it again and fails the same way. *)
Theorem failed_envelope_is_not_cached {D} `{EnvelopeFields D}
    (args : list D * bool) (w w' : World) (e : exn) :
  makeMulticallData args w = (Err e, w') →
  _makeMulticallData args.1 = Err e
  ∧ cache w' = cache w
  ∧ encodings w' = S (encodings w)
  ∧ makeMulticallData args w'
    = (Err e, {| cache := cache w;
                 encodings := S (S (encodings w));
                 requests := requests w |}).
Proof.
  unfold makeMulticallData, memoize.
  destruct (cache w !! _) as [blob|] eqn:Hmiss; [done |].
  destruct (_makeMulticallData args.1) as [blob|e'] eqn:Hrun; [done |].
  intros [= <- <-]. cbn [cache encodings requests]. by rewrite Hmiss.
Qed.

(** X16. Once the calls are normalised, an error of a collaborator is the
    error of [aggregate]: of the codec while the envelope is built, before
    any request; of the node, after the request; of the codec on the answer,
    when the declared return types and the return fields agree in number. *)
Theorem aggregate_propagates_collaborator_errors
    (calls : OneOrMany Call) (config : Config) (w : World)
    (ds : list Descriptor) :
  mapR (normalize config) (arrayify calls) = Ok ds →
  (∀ e w1, makeMulticallData (ds, false) w = (Err e, w1) →
           aggregate calls config w = (Err e, w1)
           ∧ requests w1 = requests w)
  ∧ (∀ blob w1 e,
       makeMulticallData (ds, false) w = (Ok blob, w1) →
       ethCall blob config (requests w1) = Err e →
       aggregate calls config w = (Err e, sent blob config w1))
  ∧ (∀ blob w1 outerResults e,
       makeMulticallData (ds, false) w = (Ok blob, w1) →
       ethCall blob config (requests w1) = Ok outerResults →
       length (concat (map returnTypes ds))
       = length (concat (map returns (arrayify calls))) →
       decodeParameters [TypeName "uint256"; TypeName "bytes[]"]
                        (VStr outerResults) = Err e →
       aggregate calls config w = (Err e, sent blob config w1)).
Proof.
  intros Hds. unfold aggregate. split; [| split].
  - intros e w1 Hblob.
    destruct (memoize_effects _ _ _ _ _ _ Hblob) as (Hreq & _).
    split; [| done].
    unfold aggregate_array. rewrite (bind_lift_Ok _ _ ds) by done.
    unfold mbind at 1, M_bind at 1. by rewrite Hblob.
  - intros blob w1 e Hblob Hanswer.
    unfold aggregate_array. rewrite (bind_lift_Ok _ _ ds) by done.
    unfold mbind at 1, M_bind at 1. rewrite Hblob.
    unfold mbind at 1, M_bind at 1, send at 1. rewrite Hanswer.
    by unfold sent, send.
  - intros blob w1 outer e Hblob Hanswer Hlen Hdecode.
    rewrite (aggregate_array_steps _ _ _ _ _ _ _ Hds Hblob Hanswer).
    unfold after_answer.
    rewrite (normalize_all_returns _ _ _ Hds).
    rewrite bool_decide_eq_true_2 by done. simpl. by rewrite Hdecode.
Qed.

End CollaboratorErrors.

(** ** Complete results *)

Section Complete.
Context `{Collaborators}.




End Complete.

(** ** The further properties on concrete calls *)

Lemma abi_method_string_normalises_to_itself_witness :
  @ABI.normalize_with Samples.node (Some Samples.erc20) Samples.config
    Samples.abi_balance
  = Ok Samples.abi_balance_descriptor
  ∧ ∃ d', @normalize Samples.node Samples.config
            {| call := ("balanceOf(address)", [VStr "0xABC"]);
               target := Some "0xTOKEN";
               returns := [Samples.field "a"] |} = Ok d'
          ∧ method d' = "balanceOf(address)"
          ∧ args d' = [(VStr "0xABC", "address")].
Proof.
  split; [reflexivity |].
  destruct (@abi_method_string_normalises_to_itself Samples.node
              Samples.erc20 Samples.config Samples.abi_balance
              Samples.abi_balance_descriptor [Samples.field "a"])
    as (d' & Hd' & Hm & Ha & _); try reflexivity.
  { repeat constructor; done. }
  exists d'. split; [exact Hd' |]. split; [exact Hm | exact Ha].
Defined.

Lemma mappings_share_keys_witness :
  assign_from 0 [VNum 1; VNum 2]
    [Samples.field "a"; Samples.field "b"; Samples.doubled "c"]
    {| blockNumber := Some (VNum 100); original := ∅; transformed := ∅ |}
  = Ok Samples.two_written
  ∧ Forall (λ meta, transform meta = None)
           [Samples.field "a"; Samples.field "b"]
  ∧ transformed Samples.two_written = original Samples.two_written.
Proof.
  split; [reflexivity |]. split; [by repeat constructor |].
  destruct (mappings_share_keys [VNum 1; VNum 2]
              [Samples.field "a"; Samples.field "b"; Samples.doubled "c"]
              (Some (VNum 100)) Samples.two_written eq_refl)
    as (_ & _ & Hsame).
  apply Hsame. by repeat constructor.
Defined.

Lemma more_blobs_than_calls_raises_witness :
  (length [Samples.flags] < length [VStr "0x01"; VStr "0x00"])%nat
  ∧ @parse Samples.node [Samples.flags] [VArr [VStr "0x01"; VStr "0x00"]] []
    = Err (TypeError
             "Cannot read properties of undefined (reading 'returnTypes')").
Proof.
  split; [simpl; lia |].
  destruct (@more_blobs_than_calls_raises Samples.node [Samples.flags]
              [VStr "0x01"; VStr "0x00"] [] []) as [_ Htype]; [simpl; lia |].
  apply Htype. intros i c r Hc Hr. destruct i as [|i]; [| done].
  injection Hc as <-. by eexists.
Defined.

Lemma aggregate_writes_requested_keys_only_witness :
  (∃ ret w',
     @aggregate Samples.node (Many [Samples.balanceOf; Samples.totalSupply])
       Samples.config Samples.w0 = (Ok ret, w')
     ∧ original (results ret) !! "a" = Some (VStr "0x2a"))
  ∧ ∃ c, c ∈ [Samples.balanceOf; Samples.totalSupply]
         ∧ "a" ∈ map key (returns c).
Proof.
  assert (∃ ret w',
            @aggregate Samples.node
              (Many [Samples.balanceOf; Samples.totalSupply])
              Samples.config Samples.w0 = (Ok ret, w')
            ∧ original (results ret) !! "a" = Some (VStr "0x2a")) as Hrun.
  { eexists _, _. split; [vm_compute; reflexivity | reflexivity]. }
  split; [exact Hrun |]. destruct Hrun as (ret & w' & Hagg & Ha).
  apply (@aggregate_writes_requested_keys_only Samples.node
           (Many [Samples.balanceOf; Samples.totalSupply])
           Samples.config Samples.w0 w' ret "a" Hagg).
  left. by rewrite Ha.
Defined.

Lemma envelope_depends_on_target_method_args_witness :
  Forall2 (λ (d1 : Descriptor) (d2 : ABI.Descriptor),
             target_of d1 = target_of d2
             ∧ method_of d1 = method_of d2
             ∧ args_of d1 = args_of d2)
          [Samples.balance_descriptor (Samples.doubled "a")]
          [Samples.abi_balance_descriptor]
  ∧ @_makeMulticallData Samples.node Descriptor Descriptor_fields
      [Samples.balance_descriptor (Samples.doubled "a")]
    = @_makeMulticallData Samples.node ABI.Descriptor ABI.Descriptor_fields
        [Samples.abi_balance_descriptor].
Proof.
  assert (Forall2 (λ (d1 : Descriptor) (d2 : ABI.Descriptor),
                     target_of d1 = target_of d2
                     ∧ method_of d1 = method_of d2
                     ∧ args_of d1 = args_of d2)
                  [Samples.balance_descriptor (Samples.doubled "a")]
                  [Samples.abi_balance_descriptor]) as Hsame.
  { by repeat constructor. }
  split; [exact Hsame |].
  exact (@envelope_depends_on_target_method_args Samples.node
           Descriptor ABI.Descriptor Descriptor_fields ABI.Descriptor_fields
           _ _ Hsame).
Defined.



Lemma failed_envelope_is_not_cached_witness :
  @makeMulticallData Samples.refusing Descriptor Descriptor_fields
    ([Samples.totalSupply_descriptor], false) Samples.w0
  = (Err (Thrown "encodeParameters" "invalid value"),
     {| cache := ∅; encodings := 1; requests := [] |})
  ∧ @makeMulticallData Samples.refusing Descriptor Descriptor_fields
      ([Samples.totalSupply_descriptor], false)
      {| cache := ∅; encodings := 1; requests := [] |}
    = (Err (Thrown "encodeParameters" "invalid value"),
       {| cache := ∅; encodings := 2; requests := [] |}).
Proof.
  split; [reflexivity |].
  exact (proj2 (proj2 (proj2
           (@failed_envelope_is_not_cached Samples.refusing
              Descriptor Descriptor_fields
              ([Samples.totalSupply_descriptor], false) Samples.w0
              {| cache := ∅; encodings := 1; requests := [] |}
              (Thrown "encodeParameters" "invalid value") eq_refl)))).
Defined.

Lemma aggregate_propagates_collaborator_errors_witness :
  mapR (@normalize Samples.down Samples.config) [Samples.totalSupply]
  = Ok [Samples.totalSupply_descriptor]
  ∧ (@aggregate Samples.down (Many [Samples.totalSupply])
       Samples.config Samples.w0).1
    = Err (Thrown "ethCall" "connection refused").
Proof.
  split; [reflexivity |].
  destruct (@aggregate_propagates_collaborator_errors Samples.down
              (Many [Samples.totalSupply]) Samples.config Samples.w0
              [Samples.totalSupply_descriptor] eq_refl) as (_ & Hnode & _).
  erewrite Hnode; [reflexivity | vm_compute; reflexivity | reflexivity].
Defined.

